(** * The sensors HAL poll context of libsensors/sensors.cpp

    A shallow embedding of [sensors_poll_context_t]: the static mapping
    [handleToDriver], the control operations [activate] and [setDelay], and
    the drain/wait loop of [pollEvents].

    The sensor drivers (subclasses of [SensorBase]) and the C library calls
    [poll], [read], [write] are collaborators outside the file.  They are
    taken as the operations of a [Platform]; every call made to one of them
    is appended to a log, so that what the context does to its collaborators
    can be stated and proved. *)

From stdpp Require Import base list gmap strings.
From Stdlib Require Import ZArith Ascii.

Local Open Scope Z_scope.

(** ** Machine integers *)

(** The C type [int] is 32 bits wide on the target; [to_int] is the
    two's-complement wrap-around of a mathematical result. *)
Definition INT_MIN : Z := - 2 ^ 31.
Definition INT_MAX : Z := 2 ^ 31 - 1.

Definition to_int (z : Z) : Z := (z + 2 ^ 31) `mod` 2 ^ 32 - 2 ^ 31.

Definition in_int (z : Z) : Prop := INT_MIN ≤ z ≤ INT_MAX.

(** ** Constants of the system headers *)

(** errno.h *)
Definition EINVAL : Z := 22.
Definition EINTR : Z := 4.
(** poll.h *)
Definition POLLIN : Z := 1.

(** ** The slot enumeration (sensors.cpp, lines 165-178)

    [USE_MPU] is not defined and [USE_NCT] is, so the anonymous enum numbers
    five drivers and six poll entries. *)
Definition light : Z := 0.
Definition kxt : Z := 1.
Definition akm : Z := 2.
Definition nct : Z := 3.
Definition proximity : Z := 4.
Definition numSensorDrivers : Z := 5.
Definition numFds : Z := 6.

Definition wake : Z := numFds - 1.
Definition WAKE_MESSAGE : ascii := "W"%char.

(** ** struct pollfd *)
Record pollfd := mk_pollfd { fd : Z; events : Z; revents : Z }.

#[global] Instance pollfd_inhabited : Inhabited pollfd :=
  populate (mk_pollfd 0 0 0).

#[global] Instance pollfd_eq_dec : EqDecision pollfd.
Proof. solve_decision. Defined.

Definition with_revents (r : Z) (p : pollfd) : pollfd :=
  mk_pollfd (fd p) (events p) r.

(** [x & POLLIN] used as a C condition. *)
Definition has_POLLIN (r : Z) : bool := negb (Z.land r POLLIN =? 0).

(** ** The platform: drivers, system calls, header constants *)

(** A driver object is named by its address ([SensorBase*], a [Z]); its
    state lives in the [World], which every virtual call may change.
    [hasPendingEvents] is a const member function and only answers.
    [readEvents] yields the number it returns and the records it stored at
    the address it was given.  [sys_poll] yields its return value and the
    [revents] it stored, entry by entry; [sys_read] yields its return value
    and the content of the one-byte buffer after the call. *)
Class Platform := {
  World : Type;
  sensors_event_t : Type;
  (* SensorBase *)
  SensorBase_enable : World → Z → Z → Z → Z * World;
  SensorBase_setDelay : World → Z → Z → Z → Z * World;
  SensorBase_hasPendingEvents : World → Z → bool;
  SensorBase_readEvents : World → Z → Z → Z * list sensors_event_t * World;
  (* libc *)
  sys_poll : World → list pollfd → Z → Z → Z * list Z * World;
  sys_write : World → Z → list ascii → Z → Z * World;
  sys_read : World → Z → Z → Z * ascii * World;
  errno : World → Z;
  (* sensors.h: the sensor identifiers, not defined in sensors.cpp *)
  ID_A : Z;
  ID_M : Z;
  ID_O : Z;
  ID_P : Z;
  ID_L : Z;
  ID_T : Z
}.

(** ** The log of calls to collaborators *)
Inductive call :=
| c_enable (sensor handle enabled err : Z)
| c_setDelay (sensor handle ns err : Z)
| c_hasPendingEvents (sensor : Z) (r : bool)
| c_readEvents (sensor data count nb : Z)
| c_poll (fds : list pollfd) (nfds timeout n : Z)
| c_write (wfd : Z) (bytes : list ascii) (len result : Z)
| c_read (rfd len result : Z)
| c_ALOGE (msg : string).

#[global] Instance call_eq_dec : EqDecision call.
Proof. solve_decision. Defined.

Definition is_readEvents (c : call) : bool :=
  match c with c_readEvents _ _ _ _ => true | _ => false end.

Definition is_write (c : call) : bool :=
  match c with c_write _ _ _ _ => true | _ => false end.

Definition is_read (c : call) : bool :=
  match c with c_read _ _ _ => true | _ => false end.

Definition is_poll (c : call) : bool :=
  match c with c_poll _ _ _ _ => true | _ => false end.

(** The driver object a logged [readEvents] was called on. *)
Definition read_sensor (c : call) : option Z :=
  match c with c_readEvents sensor _ _ _ => Some sensor | _ => None end.

(** Along a piece of log, every [readEvents] was given the address and the
    room left by the ones before it; [room'] and [data'] are what is left
    after the last. *)
Fixpoint offered (room data : Z) (ext : list call) (room' data' : Z) : Prop :=
  match ext with
  | [] => room' = room ∧ data' = data
  | c_readEvents _ d c nb :: rest =>
      d = data ∧ c = room ∧
      offered (to_int (room - nb)) (data + nb) rest room' data'
  | _ :: rest => offered room data rest room' data'
  end.

Definition is_ALOGE (c : call) : bool :=
  match c with c_ALOGE _ => true | _ => false end.

Definition is_driver_call (c : call) : bool :=
  match c with
  | c_enable _ _ _ _ | c_setDelay _ _ _ _
  | c_hasPendingEvents _ _ | c_readEvents _ _ _ _ => true
  | _ => false
  end.

Section PollContext.
Context {P : Platform}.

(** ** The context object and the machine state *)

(** The data members of [sensors_poll_context_t] (lines 180-184). *)
Record sensors_poll_context_t := mk_ctx {
  mPollFds : list pollfd;
  mWritePipeFd : Z;
  mSensors : list Z
}.

(** The context, the world outside it, the caller's event buffer (indexed
    from the address the caller passed) and the log. *)
Record state := mk_state {
  this : sensors_poll_context_t;
  env : World;
  buf : gmap Z sensors_event_t;
  log : list call
}.

Definition M (A : Type) : Type := state → A * state.

Definition ret {A} (a : A) : M A := λ s, (a, s).

Definition bind {A B} (m : M A) (k : A → M B) : M B :=
  λ s, let '(a, s') := m s in k a s'.

Notation "x <~ m ;; k" := (bind m (λ x, k))
  (at level 100, m at next level, right associativity).
Notation "m ;;; k" := (bind m (λ _, k))
  (at level 100, right associativity).

Definition emit (c : call) : M unit :=
  λ s, (tt, mk_state (this s) (env s) (buf s) (log s ++ [c])).

Definition set_env (w : World) : M unit :=
  λ s, (tt, mk_state (this s) w (buf s) (log s)).

Definition get_this : M sensors_poll_context_t := λ s, (this s, s).

Definition get_env : M World := λ s, (env s, s).

(** The context with its poll array replaced. *)
Definition with_pollfds (fds : list pollfd) (c : sensors_poll_context_t)
    : sensors_poll_context_t :=
  mk_ctx fds (mWritePipeFd c) (mSensors c).

Definition set_pollfds (fds : list pollfd) : M unit :=
  λ s, (tt, mk_state (with_pollfds fds (this s)) (env s) (buf s) (log s)).

(** [ALOGE] and [ALOGE_IF]. *)
Definition ALOGE (msg : string) : M unit := emit (c_ALOGE msg).

Definition ALOGE_IF (c : bool) (msg : string) : M unit :=
  if c then ALOGE msg else ret tt.

(** *** Calls to the drivers *)

Definition call_enable (sensor handle enabled : Z) : M Z :=
  w <~ get_env ;;
  let '(err, w') := SensorBase_enable w sensor handle enabled in
  set_env w' ;;; emit (c_enable sensor handle enabled err) ;;; ret err.

Definition call_setDelay (sensor handle ns : Z) : M Z :=
  w <~ get_env ;;
  let '(err, w') := SensorBase_setDelay w sensor handle ns in
  set_env w' ;;; emit (c_setDelay sensor handle ns err) ;;; ret err.

Definition call_hasPendingEvents (sensor : Z) : M bool :=
  w <~ get_env ;;
  let r := SensorBase_hasPendingEvents w sensor in
  emit (c_hasPendingEvents sensor r) ;;; ret r.

(** The records a driver stores at [data], [data + 1], ... *)
Fixpoint store_events (data : Z) (evs : list sensors_event_t)
    (b : gmap Z sensors_event_t) : gmap Z sensors_event_t :=
  match evs with
  | [] => b
  | e :: evs' => store_events (data + 1) evs' (<[data := e]> b)
  end.

Definition call_readEvents (sensor data count : Z) : M Z :=
  λ s, let '(nb, evs, w') := SensorBase_readEvents (env s) sensor count in
       (nb, mk_state (this s) w' (store_events data evs (buf s))
                     (log s ++ [c_readEvents sensor data count nb])).

(** *** System calls *)

(** [poll(mPollFds, nfds, timeout)]: the kernel stores [revents] into the
    entries of the array. *)
Fixpoint store_revents (fds : list pollfd) (rs : list Z) : list pollfd :=
  match fds, rs with
  | p :: fds', r :: rs' => with_revents r p :: store_revents fds' rs'
  | _, _ => fds
  end.

Definition call_poll (nfds timeout : Z) : M Z :=
  λ s, let fds := mPollFds (this s) in
       let '(n, rs, w') := sys_poll (env s) fds nfds timeout in
       (n, mk_state (with_pollfds (store_revents fds rs) (this s))
                    w' (buf s) (log s ++ [c_poll fds nfds timeout n])).

Definition call_write (wfd : Z) (bytes : list ascii) (len : Z) : M Z :=
  w <~ get_env ;;
  let '(result, w') := sys_write w wfd bytes len in
  set_env w' ;;; emit (c_write wfd bytes len result) ;;; ret result.

Definition call_read (rfd len : Z) : M (Z * ascii) :=
  w <~ get_env ;;
  let '(result, msg, w') := sys_read w rfd len in
  set_env w' ;;; emit (c_read rfd len result) ;;; ret (result, msg).

(** ** handleToDriver (lines 186-207) *)
Definition handleToDriver (handle : Z) : Z :=
  if handle =? ID_A then kxt
  else if handle =? ID_M then akm
  else if handle =? ID_O then akm
  else if handle =? ID_P then proximity
  else if handle =? ID_L then light
  else if handle =? ID_T then nct
  else - EINVAL.

(** The identifiers with a [case] label in this build. *)
Definition mapped_ids : list Z := [ID_A; ID_M; ID_O; ID_P; ID_L; ID_T].

(** [mSensors[index]] and [mPollFds[index]]. *)
Definition sensor_at (c : sensors_poll_context_t) (index : Z) : Z :=
  mSensors c !!! Z.to_nat index.

Definition pollfd_at (c : sensors_poll_context_t) (index : Z) : pollfd :=
  mPollFds c !!! Z.to_nat index.

(** [mPollFds[index].revents = r]. *)
Definition set_revents (index r : Z) : M unit :=
  c <~ get_this ;;
  set_pollfds (alter (with_revents r) (Z.to_nat index) (mPollFds c)).

(** What the wait set watches: the descriptor and the interest flags of
    every entry of the poll array, in order. *)
Definition interest (c : sensors_poll_context_t) : list (Z * Z) :=
  (λ p, (fd p, events p)) <$> mPollFds c.

(** The parts of the context that no operation is meant to change. *)
Definition same_wiring (c c' : sensors_poll_context_t) : Prop :=
  interest c' = interest c ∧
  mWritePipeFd c' = mWritePipeFd c ∧
  mSensors c' = mSensors c.

(** The condition of line 296: the slot's entry has [POLLIN] set or its
    driver reports pending events. *)
Definition slot_ready (s : state) (i : Z) : bool :=
  has_POLLIN (revents (pollfd_at (this s) i))
  || SensorBase_hasPendingEvents (env s) (sensor_at (this s) i).

(** Modelled from the spec: the drivers' [readEvents], whose code is not in
    sensors.cpp.  The spec (section 6, driver capability) has it return 0
    to capacity events and never exceed the capacity: given room for [room]
    records, the number returned is between 0 and [room]. *)
Definition readEvents_within_room : Prop :=
  ∀ w sensor room, 0 < room ≤ INT_MAX →
    0 ≤ fst (fst (SensorBase_readEvents w sensor room)) ≤ room.

(** ** activate (lines 268-278) *)
Definition activate (handle enabled : Z) : M Z :=
  let index := handleToDriver handle in
  if index <? 0 then ret index
  else
    c <~ get_this ;;
    err <~ call_enable (sensor_at c index) handle enabled ;;
    (if negb (enabled =? 0) && (err =? 0) then
       result <~ call_write (mWritePipeFd c) [WAKE_MESSAGE] 1 ;;
       ALOGE_IF (result <? 0) "error sending wake message"
     else ret tt) ;;;
    ret err.

(** ** setDelay (lines 280-285) *)
Definition setDelay (handle ns : Z) : M Z :=
  let index := handleToDriver handle in
  if index <? 0 then ret index
  else
    c <~ get_this ;;
    call_setDelay (sensor_at c index) handle ns.

(** ** pollEvents (lines 287-330) *)

(** The locals of [pollEvents]; [data] is kept as an offset from the
    address the caller passed. *)
Record frame := mk_frame { count : Z; nbEvents : Z; n : Z; data : Z }.

(** The body of the [for] loop, for one slot [i] (lines 295-306).  [ALOGV]
    is compiled out ([LOG_NDEBUG] is left at its default). *)
Definition drain_slot (i : Z) (l : frame) : M frame :=
  c <~ get_this ;;
  let sensor := sensor_at c i in
  ready <~ (if has_POLLIN (revents (pollfd_at c i)) then ret true
            else call_hasPendingEvents sensor) ;;
  if ready : bool then
    nb <~ call_readEvents sensor (data l) (count l) ;;
    (if nb <? count l then set_revents i 0 else ret tt) ;;;
    ret (mk_frame (to_int (count l - nb)) (to_int (nbEvents l + nb))
                  (n l) (data l + nb))
  else ret l.

(** The [for] loop (line 294): [slots] are the values of [i] still to come;
    the loop stops as soon as [count] is zero. *)
Fixpoint drain (slots : list Z) (l : frame) : M frame :=
  match slots with
  | [] => ret l
  | i :: slots' =>
      if count l =? 0 then ret l
      else l' <~ drain_slot i l ;; drain slots' l'
  end.

(** The values [i] takes: 0, 1, ..., numSensorDrivers - 1. *)
Definition driver_slots : list Z := seqZ 0 numSensorDrivers.

(** The body of [if (count)] (lines 313-324).  [inr v] is [return v]. *)
Definition wait_pass (l : frame) : M (frame + Z) :=
  n' <~ call_poll numFds (if nbEvents l =? 0 then -1 else 0) ;;
  if n' <? 0 then
    ALOGE "poll() failed" ;;;
    w <~ get_env ;;
    ret (inr (to_int (- errno w)))
  else
    c <~ get_this ;;
    (if has_POLLIN (revents (pollfd_at c wake)) then
       rm <~ call_read (fd (pollfd_at c wake)) 1 ;;
       ALOGE_IF (fst rm <? 0) "error reading from wake pipe" ;;;
       ALOGE_IF (negb (Ascii.eqb (snd rm) WAKE_MESSAGE))
                "unknown message on wake queue" ;;;
       set_revents wake 0
     else ret tt) ;;;
    ret (inl (mk_frame (count l) (nbEvents l) n' (data l))).

(** One turn of the [do ... while (n && count)] loop (lines 292-327):
    [inl l'] goes round again with locals [l'], [inr v] is [return v]. *)
Definition pass (l : frame) : M (frame + Z) :=
  l1 <~ drain driver_slots l ;;
  r <~ (if count l1 =? 0 then ret (inl l1) else wait_pass l1) ;;
  match r with
  | inr v => ret (inr v)
  | inl l2 =>
      if negb (n l2 =? 0) && negb (count l2 =? 0) then ret (inl l2)
      else ret (inr (nbEvents l2))
  end.

(** The locals account for a capacity [count0]: the room left and the
    records collected add up to it, and [data] has advanced by the records
    collected. *)
Definition within (count0 : Z) (l : frame) : Prop :=
  0 ≤ count l ∧ 0 ≤ nbEvents l ∧ nbEvents l + count l = count0 ∧
  data l = nbEvents l.

(** A returned value is the count of records, within the capacity, unless
    it is the error return of a failed [poll]. *)
Definition returned_within (count0 : Z) (v : Z) (s : state) : Prop :=
  0 ≤ v ≤ count0 ∨
  (v = to_int (- errno (env s)) ∧
   last (log s) = Some (c_ALOGE "poll() failed")).

(** At most [fuel] turns of the loop: [inr v] when [pollEvents] has returned
    [v], [inl l] when it is about to start another turn with locals [l]. *)
Fixpoint pollEvents_loop (fuel : nat) (l : frame) : M (frame + Z) :=
  match fuel with
  | O => ret (inl l)
  | S fuel' =>
      r <~ pass l ;;
      match r with
      | inl l' => pollEvents_loop fuel' l'
      | inr v => ret (inr v)
      end
  end.

Definition pollEvents (fuel : nat) (count : Z) : M (frame + Z) :=
  pollEvents_loop fuel (mk_frame count 0 0 0).

End PollContext.

Arguments mk_state {P} _ _ _ _.
Arguments state P : clear implicits.
Arguments readEvents_within_room P : clear implicits.

(** ** A simulated platform

    A small executable platform on which the operations can be run: every
    driver owns a queue of buffered records, the wake pipe is a bounded byte
    queue, and [poll] replays a script of answers. *)
Module Sim.

Record world := mk_world {
  queues : list (Z * list nat);   (* driver object ↦ its buffered records *)
  broken : list Z;                (* drivers whose enable fails *)
  pipe : list ascii;              (* bytes in the wake pipe *)
  pipe_cap : nat;                 (* capacity of the wake pipe *)
  script : list (Z * list Z * Z); (* answers of poll: n, revents, errno *)
  last_errno : Z
}.

Definition EIO : Z := 5.
Definition EAGAIN : Z := 11.

Definition queue_of (w : world) (sensor : Z) : list nat :=
  match list_find (λ q, fst q = sensor) (queues w) with
  | Some (_, (_, q)) => q
  | None => []
  end.

Definition set_queue (sensor : Z) (q : list nat) (qs : list (Z * list nat))
    : list (Z * list nat) :=
  (λ e, if bool_decide (fst e = sensor) then (sensor, q) else e) <$> qs.

Definition enable (w : world) (sensor handle enabled : Z) : Z * world :=
  if bool_decide (sensor ∈ broken w) then (- EIO, w) else (0, w).

Definition setDelay (w : world) (sensor handle ns : Z) : Z * world :=
  if ns <? 0 then (- EINVAL, w) else (0, w).

Definition hasPendingEvents (w : world) (sensor : Z) : bool := false.

Definition readEvents (w : world) (sensor count : Z)
    : Z * list nat * world :=
  let q := queue_of w sensor in
  let out := take (Z.to_nat count) q in
  (Z.of_nat (length out), out,
   mk_world (set_queue sensor (drop (Z.to_nat count) q) (queues w))
            (broken w) (pipe w) (pipe_cap w) (script w) (last_errno w)).

Definition poll (w : world) (fds : list pollfd) (nfds timeout : Z)
    : Z * list Z * world :=
  match script w with
  | [] => (0, [], w)
  | (n, rs, e) :: rest =>
      (n, rs, mk_world (queues w) (broken w) (pipe w) (pipe_cap w) rest
                       (if n <? 0 then e else last_errno w))
  end.

Definition write (w : world) (wfd : Z) (bytes : list ascii) (len : Z)
    : Z * world :=
  if (length (pipe w) + Z.to_nat len <=? pipe_cap w)%nat then
    (len, mk_world (queues w) (broken w)
                   (pipe w ++ take (Z.to_nat len) bytes)
                   (pipe_cap w) (script w) (last_errno w))
  else
    (-1, mk_world (queues w) (broken w) (pipe w) (pipe_cap w) (script w)
                  EAGAIN).

Definition read (w : world) (rfd len : Z) : Z * ascii * world :=
  match pipe w with
  | [] => (-1, "000"%char,
           mk_world (queues w) (broken w) [] (pipe_cap w) (script w) EAGAIN)
  | b :: rest =>
      (1, b, mk_world (queues w) (broken w) rest (pipe_cap w) (script w)
                      (last_errno w))
  end.

#[export] Instance platform : Platform := {|
  World := world;
  sensors_event_t := nat;
  SensorBase_enable := enable;
  SensorBase_setDelay := setDelay;
  SensorBase_hasPendingEvents := hasPendingEvents;
  SensorBase_readEvents := readEvents;
  sys_poll := poll;
  sys_write := write;
  sys_read := read;
  errno := last_errno;
  ID_A := 0; ID_M := 1; ID_O := 2; ID_L := 3; ID_P := 4; ID_T := 6
|}.

(** The context the constructor builds: driver objects at 100 .. 104 with
    event descriptors 10 .. 14, the wake pipe on descriptors 20 (read end)
    and 21 (write end). *)
Definition ctx0 : sensors_poll_context_t :=
  mk_ctx [mk_pollfd 10 POLLIN 0; mk_pollfd 11 POLLIN 0; mk_pollfd 12 POLLIN 0;
          mk_pollfd 13 POLLIN 0; mk_pollfd 14 POLLIN 0; mk_pollfd 20 POLLIN 0]
         21 [100; 101; 102; 103; 104].

Definition world0 : world :=
  mk_world [(100, []); (101, []); (102, []); (103, []); (104, [])]
           [] [] 4 [] 0.

Definition state0 : state platform := mk_state ctx0 world0 ∅ [].

(** [ctx0] after a [poll] that found the light and the proximity
    descriptors readable. *)
Definition ctx_ready : sensors_poll_context_t :=
  mk_ctx [mk_pollfd 10 POLLIN POLLIN; mk_pollfd 11 POLLIN 0;
          mk_pollfd 12 POLLIN 0; mk_pollfd 13 POLLIN 0;
          mk_pollfd 14 POLLIN POLLIN; mk_pollfd 20 POLLIN 0]
         21 [100; 101; 102; 103; 104].

(** The light driver holds [light_q], the proximity driver [prox_q]; the
    wake pipe holds [bytes]; [poll] will answer [answers]. *)
Definition world_with (light_q prox_q : list nat) (bytes : list ascii)
    (answers : list (Z * list Z * Z)) : world :=
  mk_world [(100, light_q); (101, []); (102, []); (103, []); (104, prox_q)]
           [] bytes 4 answers 0.

Definition state_ready (light_q prox_q : list nat) (bytes : list ascii)
    (answers : list (Z * list Z * Z)) : state platform :=
  mk_state ctx_ready (world_with light_q prox_q bytes answers) ∅ [].

(** The answer of a [poll] that finds only the wake pipe readable. *)
Definition wake_only : Z * list Z * Z := (1, [0; 0; 0; 0; 0; POLLIN], 0).

(** The answer of a [poll] that finds only the proximity driver readable. *)
Definition proximity_only : Z * list Z * Z := (1, [0; 0; 0; 0; POLLIN; 0], 0).

(** The answer of a [poll] interrupted by a signal. *)
Definition interrupted : Z * list Z * Z := (-1, [], EINTR).

(** The light driver at 100 refuses to be enabled. *)
Definition state_broken : state platform :=
  mk_state ctx0
    (mk_world [(100, []); (101, []); (102, []); (103, []); (104, [])]
              [100] [] 4 [] 0) ∅ [].

(** The wake pipe is full. *)
Definition state_full : state platform :=
  mk_state ctx0
    (mk_world [(100, []); (101, []); (102, []); (103, []); (104, [])]
              [] ["W"; "W"; "W"; "W"]%char 4 [] 0) ∅ [].

End Sim.

(** ** A platform off the contract

    The simulated platform with drivers whose [readEvents] fails with
    [-EIO] instead of returning a number of records. *)
Module Faulty.

Definition readEvents (w : Sim.world) (sensor count : Z)
    : Z * list nat * Sim.world :=
  (- Sim.EIO, [], w).

#[export] Instance platform : Platform := {|
  World := Sim.world;
  sensors_event_t := nat;
  SensorBase_enable := Sim.enable;
  SensorBase_setDelay := Sim.setDelay;
  SensorBase_hasPendingEvents := Sim.hasPendingEvents;
  SensorBase_readEvents := readEvents;
  sys_poll := Sim.poll;
  sys_write := Sim.write;
  sys_read := Sim.read;
  errno := Sim.last_errno;
  ID_A := 0; ID_M := 1; ID_O := 2; ID_L := 3; ID_P := 4; ID_T := 6
|}.

Definition state_ready : state platform :=
  mk_state Sim.ctx_ready (Sim.world_with [] [] [] []) ∅ [].

End Faulty.

(** ** Sequences of calls on the context

    A call of [pollEvents] is run for at most [fuel] turns of its loop. *)

Inductive api :=
| Activate (handle enabled : Z)
| SetDelay (handle ns : Z)
| PollEvents (fuel : nat) (count : Z).

Definition api_step {P : Platform} (a : api) (s : state P) : state P :=
  match a with
  | Activate handle enabled => snd (activate handle enabled s)
  | SetDelay handle ns => snd (setDelay handle ns s)
  | PollEvents fuel count => snd (pollEvents fuel count s)
  end.

Definition exec {P : Platform} (calls : list api) (s : state P) : state P :=
  foldl (λ s a, api_step a s) s calls.


(** * Construction and teardown of the context (lines 212-266) *)

(** fcntl.h *)
Definition F_SETFL : Z := 4.
Definition O_NONBLOCK : Z := 2048.

(** The driver classes instantiated in this build ([GyroSensor] is not:
    [USE_MPU] is not defined). *)
Inductive driver_class :=
| LightSensor | KXTFSensor | AkmSensor | NctSensor | ProximitySensor.

#[global] Instance driver_class_eq_dec : EqDecision driver_class.
Proof. solve_decision. Defined.

(** What construction and teardown ask of the platform: [new] and [delete]
    of a driver object, the const member [getFd], and the calls [pipe],
    [fcntl] and [close].  [sys_pipe] yields its return value and the content
    of the two-element array after the call. *)
Class Lifecycle (P : Platform) := {
  new_driver : World → driver_class → Z * World;
  delete_driver : World → Z → World;
  SensorBase_getFd : World → Z → Z;
  sys_pipe : World → Z * (Z * Z) * World;
  sys_fcntl : World → Z → Z → Z → Z * World;
  sys_close : World → Z → Z * World
}.

(** The log of construction and teardown. *)
Inductive life_call :=
| l_new (cls : driver_class) (sensor : Z)
| l_getFd (sensor fd : Z)
| l_pipe (result rfd wfd : Z)
| l_fcntl (fd cmd arg result : Z)
| l_delete (sensor : Z)
| l_close (fd result : Z)
| l_ALOGE (msg : string).

#[global] Instance life_call_eq_dec : EqDecision life_call.
Proof. solve_decision. Defined.

(** The driver object a logged [new] returned, a logged [delete] destroyed,
    and the descriptor a logged [close] closed. *)
Definition new_sensor (c : life_call) : option Z :=
  match c with l_new _ sensor => Some sensor | _ => None end.

Definition deleted_sensor (c : life_call) : option Z :=
  match c with l_delete sensor => Some sensor | _ => None end.

Definition closed_fd (c : life_call) : option Z :=
  match c with l_close fd _ => Some fd | _ => None end.

(** The two descriptors a logged [pipe] left in its array. *)
Definition pipe_fds (c : life_call) : option (Z * Z) :=
  match c with l_pipe _ rfd wfd => Some (rfd, wfd) | _ => None end.

Definition is_l_ALOGE (c : life_call) : bool :=
  match c with l_ALOGE _ => true | _ => false end.

(** A logged call that is a visit of one of the slots [slots] of the context
    [c]: a [hasPendingEvents] or a [readEvents] on the driver of such a
    slot. *)
Definition visit_of (c : sensors_poll_context_t) (slots : list Z) (x : call)
    : Prop :=
  match x with
  | c_hasPendingEvents sensor _ | c_readEvents sensor _ _ _ =>
      ∃ j, j ∈ slots ∧ sensor = sensor_at c j
  | _ => False
  end.

(** Calls that belong to the control operations. *)
Definition is_control (c : call) : bool :=
  match c with
  | c_enable _ _ _ _ | c_setDelay _ _ _ _ | c_write _ _ _ _ => true
  | _ => false
  end.

Section Life.
Context {P : Platform} {L : Lifecycle P}.

(** The object under construction or teardown, the world and the log. *)
Record life := mk_life {
  l_this : sensors_poll_context_t;
  l_env : World;
  l_log : list life_call
}.

Definition with_fd (f : Z) (p : pollfd) : pollfd :=
  mk_pollfd f (events p) (revents p).

Definition with_events (e : Z) (p : pollfd) : pollfd :=
  mk_pollfd (fd p) e (revents p).

(** [mSensors[index] = sensor]. *)
Definition set_sensor (index sensor : Z) (c : sensors_poll_context_t)
    : sensors_poll_context_t :=
  mk_ctx (mPollFds c) (mWritePipeFd c) (<[Z.to_nat index := sensor]> (mSensors c)).

(** [mPollFds[index].fd = f; .events = POLLIN; .revents = 0]. *)
Definition init_pollfd (index f : Z) (c : sensors_poll_context_t)
    : sensors_poll_context_t :=
  with_pollfds
    (alter (with_revents 0) (Z.to_nat index)
       (alter (with_events POLLIN) (Z.to_nat index)
          (alter (with_fd f) (Z.to_nat index) (mPollFds c))))
    c.

(** One block of the constructor (for instance lines 214-217): the driver
    is created, stored in its slot, and its descriptor entered in the poll
    array. *)
Definition attach (index : Z) (cls : driver_class) (st : life) : life :=
  let '(sensor, w1) := new_driver (l_env st) cls in
  let c1 := set_sensor index sensor (l_this st) in
  let f := SensorBase_getFd w1 (sensor_at c1 index) in
  mk_life (init_pollfd index f c1) w1
          (l_log st ++ [l_new cls sensor; l_getFd (sensor_at c1 index) f]).

(** Lines 248-257: the wake pipe. *)
Definition make_wake_pipe (st : life) : life :=
  let '(result, (rfd, wfd), w1) := sys_pipe (l_env st) in
  let lg1 := l_log st ++ [l_pipe result rfd wfd]
             ++ (if result <? 0 then [l_ALOGE "error creating wake pipe"]
                 else []) in
  let '(r1, w2) := sys_fcntl w1 rfd F_SETFL O_NONBLOCK in
  let '(r2, w3) := sys_fcntl w2 wfd F_SETFL O_NONBLOCK in
  let c := l_this st in
  mk_life (init_pollfd wake rfd (mk_ctx (mPollFds c) wfd (mSensors c))) w3
          (lg1 ++ [l_fcntl rfd F_SETFL O_NONBLOCK r1;
                   l_fcntl wfd F_SETFL O_NONBLOCK r2]).

(** The storage of a new object: arrays of the declared sizes whose content
    is not initialised, [junk] standing for what they hold. *)
Definition raw_object (junk : pollfd) (junk_ptr junk_fd : Z)
    : sensors_poll_context_t :=
  mk_ctx (replicate (Z.to_nat numFds) junk) junk_fd
         (replicate (Z.to_nat numSensorDrivers) junk_ptr).

(** The constructor (lines 212-258), run on the storage [raw]. *)
Definition construct (raw : sensors_poll_context_t) (w : World) : life :=
  make_wake_pipe
    (attach proximity ProximitySensor
       (attach nct NctSensor
          (attach akm AkmSensor
             (attach kxt KXTFSensor
                (attach light LightSensor (mk_life raw w [])))))).

(** The destructor (lines 260-266). *)
Definition delete_at (st : life) (i : Z) : life :=
  let sensor := sensor_at (l_this st) i in
  mk_life (l_this st) (delete_driver (l_env st) sensor)
          (l_log st ++ [l_delete sensor]).

Definition call_close (f : Z) (st : life) : life :=
  let '(result, w1) := sys_close (l_env st) f in
  mk_life (l_this st) w1 (l_log st ++ [l_close f result]).

Definition destroy (c : sensors_poll_context_t) (w : World) : life :=
  let st := foldl delete_at (mk_life c w []) driver_slots in
  call_close (mWritePipeFd c) (call_close (fd (pollfd_at c wake)) st).

(** The state in which the operations run on a context just built. *)
Definition started (st : life) : state P :=
  mk_state (l_this st) (l_env st) ∅ [].

(** ** Further conditions on runs of [pollEvents] *)

(** Modelled from the spec: the drivers' [readEvents], whose code is not in
    sensors.cpp, stores as many records as the number it returns (the spec,
    section 6, has it return the sequence of event records). *)
Definition readEvents_stores_returned : Prop :=
  ∀ w sensor room, 0 < room ≤ INT_MAX →
    let r := SensorBase_readEvents w sensor room in
    Z.of_nat (length (snd (fst r))) = fst (fst r).

(** The buffer holds a record at every offset below [nb] and is as in [b0]
    everywhere else. *)
Definition filled (b0 b : gmap Z sensors_event_t) (nb : Z) : Prop :=
  (∀ k, 0 ≤ k < nb → is_Some (b !! k)) ∧
  (∀ k, ¬ 0 ≤ k < nb → b !! k = b0 !! k).

(** What a logged call of [pollEvents] may be, on a context [c]: never a
    call of the control operations; a driver call only on a driver of the
    table; a [read] only of one byte on the wake entry's descriptor; a
    [poll] only of the [numFds] entries, with the descriptors and interest
    flags of [c], and timeout 0 or -1. *)
Definition poll_side (c : sensors_poll_context_t) (x : call) : Prop :=
  match x with
  | c_enable _ _ _ _ | c_setDelay _ _ _ _ | c_write _ _ _ _ => False
  | c_read rfd len _ => rfd = fd (pollfd_at c wake) ∧ len = 1
  | c_poll fds nfds timeout _ =>
      (λ p, (fd p, events p)) <$> fds = interest c ∧ nfds = numFds ∧
      (timeout = 0 ∨ timeout = -1)
  | c_hasPendingEvents sensor _ | c_readEvents sensor _ _ _ =>
      ∃ i, 0 ≤ i < numSensorDrivers ∧ sensor = sensor_at c i
  | c_ALOGE _ => True
  end.

End Life.

Arguments life P : clear implicits.
Arguments readEvents_stores_returned P : clear implicits.

(** ** Construction and teardown on the simulated platform *)
Module SimLife.

(** Driver objects are created at 100, 101, ...; the descriptor of the
    object at [p] is [p - 90]; [pipe] yields 20 and 21, and fails when the
    wake pipe has no capacity. *)
Definition address (cls : driver_class) : Z :=
  match cls with
  | LightSensor => 100 | KXTFSensor => 101 | AkmSensor => 102
  | NctSensor => 103 | ProximitySensor => 104
  end.

Definition new (w : Sim.world) (cls : driver_class) : Z * Sim.world :=
  (address cls,
   Sim.mk_world (Sim.queues w ++ [(address cls, [])]) (Sim.broken w)
                (Sim.pipe w) (Sim.pipe_cap w) (Sim.script w)
                (Sim.last_errno w)).

Definition delete (w : Sim.world) (sensor : Z) : Sim.world :=
  Sim.mk_world (filter (λ q, fst q ≠ sensor) (Sim.queues w)) (Sim.broken w)
               (Sim.pipe w) (Sim.pipe_cap w) (Sim.script w)
               (Sim.last_errno w).

Definition getFd (w : Sim.world) (sensor : Z) : Z := sensor - 90.

Definition EMFILE : Z := 24.

Definition pipe (w : Sim.world) : Z * (Z * Z) * Sim.world :=
  if (Sim.pipe_cap w =? 0)%nat then
    (-1, (-7, -9),
     Sim.mk_world (Sim.queues w) (Sim.broken w) (Sim.pipe w) (Sim.pipe_cap w)
                  (Sim.script w) EMFILE)
  else (0, (20, 21), w).

Definition fcntl (w : Sim.world) (f cmd arg : Z) : Z * Sim.world :=
  if f <? 0 then (-1, w) else (0, w).

Definition close (w : Sim.world) (f : Z) : Z * Sim.world :=
  if f <? 0 then (-1, w) else (0, w).

#[export] Instance lifecycle : Lifecycle Sim.platform :=
  Build_Lifecycle Sim.platform new delete getFd pipe fcntl close.

Definition raw : sensors_poll_context_t :=
  raw_object (mk_pollfd 77 77 77) 66 55.

(** A world with no driver object yet. *)
Definition empty_world (cap : nat) : Sim.world :=
  Sim.mk_world [] [] [] cap [] 0.

(** The constructor run in a world whose wake pipe has capacity [cap]. *)
Definition built (cap : nat) : life Sim.platform :=
  @construct Sim.platform lifecycle raw (empty_world cap).

End SimLife.
(** * Properties *)

(** ** Machine integers *)

Lemma to_int_id z : in_int z → to_int z = z.
Proof.
  unfold in_int, INT_MIN, INT_MAX, to_int. intros H.
  rewrite Z.mod_small; lia.
Qed.

Lemma to_int_range z : in_int (to_int z).
Proof.
  unfold in_int, INT_MIN, INT_MAX, to_int.
  pose proof (Z.mod_pos_bound (z + 2 ^ 31) (2 ^ 32)). lia.
Qed.

(** Unfolding the monad and the calls it wraps. *)
Ltac unfold_calls :=
  unfold call_enable, call_setDelay, call_hasPendingEvents, call_readEvents,
    call_poll, call_write, call_read, set_revents, set_pollfds,
    ALOGE_IF, ALOGE, emit, set_env, get_env, get_this, bind, ret in *.

(** ** The control operations *)
Section Control.
Context {P : Platform}.
Implicit Types (s : state P) (handle enabled ns : Z).

Lemma handleToDriver_mapped handle :
  handle ∈ mapped_ids → 0 ≤ handleToDriver handle < numSensorDrivers.
Proof.
  unfold mapped_ids. rewrite !elem_of_cons, elem_of_nil. intros H.
  unfold handleToDriver, kxt, akm, proximity, light, nct, numSensorDrivers.
  repeat match goal with
         | |- context [?a =? ?b] => destruct (Z.eqb_spec a b); [lia |]
         end.
  tauto.
Qed.

Lemma handleToDriver_unmapped handle :
  handle ∉ mapped_ids → handleToDriver handle = - EINVAL.
Proof.
  unfold mapped_ids. rewrite !elem_of_cons, elem_of_nil. intros H.
  unfold handleToDriver.
  repeat match goal with
         | |- context [?a =? ?b] => destruct (Z.eqb_spec a b); [tauto |]
         end.
  reflexivity.
Qed.

Lemma handleToDriver_neg_iff handle :
  handleToDriver handle < 0 ↔ handle ∉ mapped_ids.
Proof.
  split.
  - intros Hneg Hin. apply handleToDriver_mapped in Hin. lia.
  - intros H. rewrite (handleToDriver_unmapped _ H). unfold EINVAL. lia.
Qed.

Lemma activate_unmapped s handle enabled :
  handle ∉ mapped_ids → activate handle enabled s = (- EINVAL, s).
Proof.
  intros H. unfold activate. rewrite (handleToDriver_unmapped _ H).
  reflexivity.
Qed.

Lemma setDelay_unmapped s handle ns :
  handle ∉ mapped_ids → setDelay handle ns s = (- EINVAL, s).
Proof.
  intros H. unfold setDelay. rewrite (handleToDriver_unmapped _ H).
  reflexivity.
Qed.

(** What [activate] does on a mapped identifier, call by call. *)
Lemma activate_mapped s handle enabled :
  handle ∈ mapped_ids →
  activate handle enabled s =
    let sensor := sensor_at (this s) (handleToDriver handle) in
    let '(err, w1) := SensorBase_enable (env s) sensor handle enabled in
    let l1 := log s ++ [c_enable sensor handle enabled err] in
    if negb (enabled =? 0) && (err =? 0) then
      let '(result, w2) :=
        sys_write w1 (mWritePipeFd (this s)) [WAKE_MESSAGE] 1 in
      (err, mk_state (this s) w2 (buf s)
              (l1 ++ c_write (mWritePipeFd (this s)) [WAKE_MESSAGE] 1 result
                  :: (if result <? 0
                      then [c_ALOGE "error sending wake message"] else [])))
    else (err, mk_state (this s) w1 (buf s) l1).
Proof.
  intros H. apply handleToDriver_mapped in H.
  unfold activate. destruct (Z.ltb_spec (handleToDriver handle) 0); [lia |].
  unfold_calls; simpl.
  destruct (SensorBase_enable _ _ _ _) as [err w1]; simpl.
  destruct (negb (enabled =? 0) && (err =? 0)); simpl; [| reflexivity].
  destruct (sys_write _ _ _ _) as [result w2]; simpl.
  destruct (result <? 0); simpl; [| reflexivity].
  rewrite <- app_assoc. reflexivity.
Qed.

Lemma setDelay_mapped s handle ns :
  handle ∈ mapped_ids →
  setDelay handle ns s =
    let sensor := sensor_at (this s) (handleToDriver handle) in
    let '(err, w1) := SensorBase_setDelay (env s) sensor handle ns in
    (err, mk_state (this s) w1 (buf s)
            (log s ++ [c_setDelay sensor handle ns err])).
Proof.
  intros H. apply handleToDriver_mapped in H.
  unfold setDelay. destruct (Z.ltb_spec (handleToDriver handle) 0); [lia |].
  unfold_calls; simpl.
  destruct (SensorBase_setDelay _ _ _ _) as [err w1]; reflexivity.
Qed.

Lemma activate_mapped_shape s handle enabled :
  handle ∈ mapped_ids →
  let sensor := sensor_at (this s) (handleToDriver handle) in
  let err := fst (SensorBase_enable (env s) sensor handle enabled) in
  ∃ w k, activate handle enabled s =
           (err, mk_state (this s) w (buf s)
                   (log s ++ c_enable sensor handle enabled err :: k)).
Proof.
  intros Hin. rewrite (activate_mapped _ _ _ Hin). cbv zeta.
  destruct (SensorBase_enable _ _ _ _) as [err w1]. simpl.
  destruct (negb (enabled =? 0) && (err =? 0)).
  - destruct (sys_write _ _ _ _) as [result w2].
    eexists _, _. rewrite <- app_assoc. reflexivity.
  - by eexists _, _.
Qed.

Lemma setDelay_mapped_shape s handle ns :
  handle ∈ mapped_ids →
  let sensor := sensor_at (this s) (handleToDriver handle) in
  let err := fst (SensorBase_setDelay (env s) sensor handle ns) in
  ∃ w, setDelay handle ns s =
         (err, mk_state (this s) w (buf s)
                 (log s ++ [c_setDelay sensor handle ns err])).
Proof.
  intros Hin. rewrite (setDelay_mapped _ _ _ Hin). cbv zeta.
  destruct (SensorBase_setDelay _ _ _ _) as [err w1]. by eexists.
Qed.

(** Neither operation touches the context object. *)
Lemma activate_this s handle enabled :
  this (snd (activate handle enabled s)) = this s.
Proof.
  destruct (decide (handle ∈ mapped_ids)) as [Hin | Hout].
  - by destruct (activate_mapped_shape s handle enabled Hin)
      as (w & k & ->).
  - by rewrite activate_unmapped.
Qed.

Lemma setDelay_this s handle ns :
  this (snd (setDelay handle ns s)) = this s.
Proof.
  destruct (decide (handle ∈ mapped_ids)) as [Hin | Hout].
  - by destruct (setDelay_mapped_shape s handle ns Hin) as (w & ->).
  - by rewrite setDelay_unmapped.
Qed.

Lemma lookup_app_length {A} (l k : list A) : (l ++ k) !! length l = head k.
Proof.
  rewrite lookup_app_r by lia. rewrite Nat.sub_diag. by destruct k.
Qed.

Lemma exec_app (calls calls' : list api) s :
  exec (calls ++ calls') s = exec calls' (exec calls s).
Proof. unfold exec. apply foldl_app. Qed.

(** C1.  After any sequence of activate, setDelay and pollEvents calls (the
    state [exec calls s0]), for every identifier: the mapping yields a
    negative index exactly on the identifiers outside [mapped_ids];
    [activate] and [setDelay] take the error return of the mapping, which
    gives [-EINVAL] and calls nothing, if and only if the identifier is not
    mapped; and on a mapped identifier (and only there) the resolved driver
    is called with the original identifier and the value returned is the
    value that driver returned. *)
Theorem invalid_handle_iff_unmapped (calls : list api) (s0 : state P)
    handle enabled ns :
  let s := exec calls s0 in
  let sensor := sensor_at (this s) (handleToDriver handle) in
  let ra := activate handle enabled s in
  let rd := setDelay handle ns s in
  (handleToDriver handle < 0 ↔ handle ∉ mapped_ids) ∧
  (ra = (- EINVAL, s) ↔ handle ∉ mapped_ids) ∧
  (rd = (- EINVAL, s) ↔ handle ∉ mapped_ids) ∧
  (handle ∈ mapped_ids ↔
     0 ≤ handleToDriver handle < numSensorDrivers ∧
     fst ra = fst (SensorBase_enable (env s) sensor handle enabled) ∧
     log (snd ra) !! length (log s)
       = Some (c_enable sensor handle enabled (fst ra))) ∧
  (handle ∈ mapped_ids ↔
     0 ≤ handleToDriver handle < numSensorDrivers ∧
     fst rd = fst (SensorBase_setDelay (env s) sensor handle ns) ∧
     log (snd rd) !! length (log s)
       = Some (c_setDelay sensor handle ns (fst rd))).
Proof.
  intros s sensor ra rd. subst ra rd sensor.
  split; [apply handleToDriver_neg_iff |].
  destruct (decide (handle ∈ mapped_ids)) as [Hin | Hout].
  - pose proof (handleToDriver_mapped _ Hin) as Hslot.
    destruct (activate_mapped_shape s handle enabled Hin) as (w & k & Ha).
    destruct (setDelay_mapped_shape s handle ns Hin) as (wd & Hd).
    fold s. rewrite Ha, Hd. simpl.
    rewrite !lookup_app_length. simpl.
    repeat split; try done; try lia.
    all: intros Heq; exfalso.
    all: apply (f_equal (λ r, length (log (snd r)))) in Heq; simpl in Heq.
    all: rewrite length_app in Heq; simpl in Heq; lia.
  - rewrite (activate_unmapped _ _ _ Hout), (setDelay_unmapped _ _ _ Hout).
    simpl. rewrite (lookup_ge_None_2 (log s) (length (log s))) by lia.
    repeat split; try done.
    all: intros (_ & _ & ?); done.
Qed.

(** C5.  On a mapped identifier [activate] returns the error code of the
    driver's [enable], whatever [write] answers.  When [enabled] is non-zero
    and that code is zero, exactly one [write] is issued: one byte, the wake
    message 'W', on the write end of the wake pipe.  When [enabled] is zero
    or the code is not zero, no [write] is issued. *)
Theorem activate_wake_signal s handle enabled :
  handle ∈ mapped_ids →
  let sensor := sensor_at (this s) (handleToDriver handle) in
  let err_w := SensorBase_enable (env s) sensor handle enabled in
  let r := activate handle enabled s in
  let ext := drop (length (log s)) (log (snd r)) in
  fst r = fst err_w ∧
  log (snd r) = log s ++ ext ∧
  head ext = Some (c_enable sensor handle enabled (fst err_w)) ∧
  filter is_write ext =
    (if negb (enabled =? 0) && (fst err_w =? 0)
     then [c_write (mWritePipeFd (this s)) [WAKE_MESSAGE] 1
             (fst (sys_write (snd err_w) (mWritePipeFd (this s))
                             [WAKE_MESSAGE] 1))]
     else []).
Proof.
  intros Hin sensor err_w r ext. subst ext r err_w sensor.
  rewrite (activate_mapped _ _ _ Hin). cbv zeta.
  destruct (SensorBase_enable _ _ _ _) as [err w1]. simpl fst; simpl snd.
  destruct (negb (enabled =? 0) && (err =? 0)).
  - destruct (sys_write _ _ _ _) as [result w2]. simpl.
    rewrite <- app_assoc, drop_app_length.
    repeat split. destruct (result <? 0); reflexivity.
  - simpl. rewrite drop_app_length. by repeat split.
Qed.

(** C9.  On a mapped identifier [setDelay] makes one call, the resolved
    driver's [setDelay] with the original identifier and the interval,
    returns what that call returned, and issues no [write]. *)
Theorem setDelay_delegates s handle ns :
  handle ∈ mapped_ids →
  let sensor := sensor_at (this s) (handleToDriver handle) in
  let err_w := SensorBase_setDelay (env s) sensor handle ns in
  let r := setDelay handle ns s in
  fst r = fst err_w ∧
  snd r = mk_state (this s) (snd err_w) (buf s)
            (log s ++ [c_setDelay sensor handle ns (fst err_w)]) ∧
  filter is_write (drop (length (log s)) (log (snd r))) = [].
Proof.
  intros Hin sensor err_w r. subst r err_w sensor.
  rewrite (setDelay_mapped _ _ _ Hin). cbv zeta.
  destruct (SensorBase_setDelay _ _ _ _) as [err w1]. simpl.
  rewrite drop_app_length. by repeat split.
Qed.

(** C10.  For every identifier and argument, [activate] and [setDelay] leave
    the context object as it was: the poll array (every entry's descriptor,
    interest flags and readiness flags, the wake entry included), the write
    descriptor and the driver table; the caller's event buffer is untouched.
    Besides calls to driver objects and log messages, the only thing
    [activate] does is a [write] of the wake message to [mWritePipeFd];
    [setDelay] does nothing besides calls to driver objects. *)
Theorem control_leaves_poll_set s handle enabled ns :
  let sa := snd (activate handle enabled s) in
  let sd := snd (setDelay handle ns s) in
  mPollFds (this sa) = mPollFds (this s) ∧
  mPollFds (this sd) = mPollFds (this s) ∧
  this sa = this s ∧ this sd = this s ∧
  buf sa = buf s ∧ buf sd = buf s ∧
  (∃ ext, log sa = log s ++ ext ∧
     Forall (λ c, is_driver_call c ∨ is_ALOGE c ∨
                  ∃ result, c = c_write (mWritePipeFd (this s))
                                        [WAKE_MESSAGE] 1 result) ext) ∧
  (∃ ext, log sd = log s ++ ext ∧ Forall (λ c, is_driver_call c) ext).
Proof.
  intros sa sd. subst sa sd.
  destruct (decide (handle ∈ mapped_ids)) as [Hin | Hout].
  - rewrite (activate_mapped _ _ _ Hin), (setDelay_mapped _ _ _ Hin).
    cbv zeta.
    destruct (SensorBase_enable _ _ _ _) as [err w1].
    destruct (SensorBase_setDelay _ _ _ _) as [errd w1d].
    destruct (negb (enabled =? 0) && (err =? 0));
      [destruct (sys_write _ _ _ _) as [result w2] |]; simpl;
      split_and!; try done.
    + eexists. rewrite <- app_assoc. split; [reflexivity |].
      constructor; [left; exact I |].
      constructor; [right; right; by eexists |].
      destruct (result <? 0);
        [constructor; [right; left; exact I | constructor] | constructor].
    + eexists. split; [reflexivity |].
      constructor; [exact I | constructor].
    + eexists. split; [reflexivity |].
      constructor; [left; exact I | constructor].
    + eexists. split; [reflexivity |].
      constructor; [exact I | constructor].
  - rewrite (activate_unmapped _ _ _ Hout), (setDelay_unmapped _ _ _ Hout).
    simpl. split_and!; try done; exists []; by rewrite app_nil_r.
Qed.

End Control.
Section Poll.
Context {P : Platform}.
Implicit Types (s : state P) (l : frame) (i : Z).

(** What the body of the [for] loop does on a slot that is ready. *)
Lemma drain_slot_ready s l i :
  slot_ready s i = true →
  drain_slot i l s =
    let sensor := sensor_at (this s) i in
    let pre := if has_POLLIN (revents (pollfd_at (this s) i)) then []
               else [c_hasPendingEvents sensor true] in
    let '(nb, evs, w') := SensorBase_readEvents (env s) sensor (count l) in
    (mk_frame (to_int (count l - nb)) (to_int (nbEvents l + nb)) (n l)
              (data l + nb),
     mk_state
       (if nb <? count l
        then with_pollfds (alter (with_revents 0) (Z.to_nat i)
                                 (mPollFds (this s))) (this s)
        else this s)
       w' (store_events (data l) evs (buf s))
       (log s ++ pre ++ [c_readEvents sensor (data l) (count l) nb])).
Proof.
  unfold slot_ready, drain_slot. intros Hr. unfold_calls. simpl.
  destruct (has_POLLIN _); simpl in *.
  - destruct (SensorBase_readEvents _ _ _) as [[nb evs] w']. simpl.
    destruct (nb <? count l); reflexivity.
  - rewrite Hr. simpl.
    destruct (SensorBase_readEvents _ _ _) as [[nb evs] w']. simpl.
    rewrite <- app_assoc.
    destruct (nb <? count l); reflexivity.
Qed.

Lemma drain_slot_idle s l i :
  slot_ready s i = false →
  drain_slot i l s =
    (l, mk_state (this s) (env s) (buf s)
          (log s ++ [c_hasPendingEvents (sensor_at (this s) i) false])).
Proof.
  unfold slot_ready, drain_slot. intros Hr. unfold_calls. simpl.
  apply orb_false_iff in Hr as [-> Hp]. simpl. rewrite Hp. reflexivity.
Qed.

Lemma wait_pass_eq s l :
  wait_pass l s =
    let fds := mPollFds (this s) in
    let t := if nbEvents l =? 0 then -1 else 0 in
    let '(n', rs, w1) := sys_poll (env s) fds numFds t in
    let lg := log s ++ [c_poll fds numFds t n'] in
    let c1 := with_pollfds (store_revents fds rs) (this s) in
    if n' <? 0 then
      (inr (to_int (- errno w1)),
       mk_state c1 w1 (buf s) (lg ++ [c_ALOGE "poll() failed"]))
    else if has_POLLIN (revents (pollfd_at c1 wake)) then
      let '(result, msg, w2) := sys_read w1 (fd (pollfd_at c1 wake)) 1 in
      (inl (mk_frame (count l) (nbEvents l) n' (data l)),
       mk_state
         (with_pollfds (alter (with_revents 0) (Z.to_nat wake) (mPollFds c1))
                       c1)
         w2 (buf s)
         (lg ++ c_read (fd (pollfd_at c1 wake)) 1 result
             :: (if result <? 0
                 then [c_ALOGE "error reading from wake pipe"] else [])
             ++ (if Ascii.eqb msg WAKE_MESSAGE then []
                 else [c_ALOGE "unknown message on wake queue"])))
    else
      (inl (mk_frame (count l) (nbEvents l) n' (data l)),
       mk_state c1 w1 (buf s) lg).
Proof.
  unfold wait_pass. unfold_calls. simpl.
  destruct (sys_poll _ _ _ _) as [[n' rs] w1]. simpl.
  destruct (n' <? 0); [reflexivity |]. simpl.
  destruct (has_POLLIN _); [| reflexivity]. simpl.
  destruct (sys_read _ _ _) as [[result msg] w2]. simpl.
  destruct (result <? 0), (Ascii.eqb msg WAKE_MESSAGE); simpl;
    rewrite <- ?app_assoc; reflexivity.
Qed.

Lemma length_store_revents (fds : list pollfd) rs :
  length (store_revents fds rs) = length fds.
Proof.
  revert rs. induction fds as [| p fds IH]; intros [| r rs]; simpl; auto.
Qed.

Lemma pollfd_at_alter_eq (c : sensors_poll_context_t) f i :
  0 ≤ i → (Z.to_nat i < length (mPollFds c))%nat →
  pollfd_at (with_pollfds (alter f (Z.to_nat i) (mPollFds c)) c) i
  = f (pollfd_at c i).
Proof.
  intros Hi Hlen. unfold pollfd_at, with_pollfds. simpl.
  by apply list_lookup_total_alter_eq.
Qed.

Lemma pollfd_at_alter_ne (c : sensors_poll_context_t) f i j :
  0 ≤ i → 0 ≤ j → i ≠ j →
  pollfd_at (with_pollfds (alter f (Z.to_nat i) (mPollFds c)) c) j
  = pollfd_at c j.
Proof.
  intros Hi Hj Hne. unfold pollfd_at, with_pollfds. simpl.
  apply list_lookup_total_alter_ne. lia.
Qed.

(** C6.  When the body of the drain loop reads the driver of a slot (the
    slot is ready): if [readEvents] returns fewer records than the room it
    was offered, the slot's [revents] is set to zero and nothing else in the
    poll array changes; if it returns the whole room (or more), the context
    is left exactly as it was, the slot's [revents] included. *)
Theorem drained_slot_flag s l i :
  0 ≤ i < numSensorDrivers →
  length (mPollFds (this s)) = Z.to_nat numFds →
  slot_ready s i = true →
  let sensor := sensor_at (this s) i in
  let nb := fst (fst (SensorBase_readEvents (env s) sensor (count l))) in
  let s' := snd (drain_slot i l s) in
  last (log s') = Some (c_readEvents sensor (data l) (count l) nb) ∧
  (nb < count l →
     revents (pollfd_at (this s') i) = 0 ∧
     fd (pollfd_at (this s') i) = fd (pollfd_at (this s) i) ∧
     events (pollfd_at (this s') i) = events (pollfd_at (this s) i) ∧
     ∀ j, 0 ≤ j → j ≠ i → pollfd_at (this s') j = pollfd_at (this s) j) ∧
  (count l ≤ nb → this s' = this s).
Proof.
  intros Hi Hlen Hr sensor nb s'. subst s' nb sensor.
  rewrite (drain_slot_ready _ _ _ Hr). cbv zeta.
  destruct (SensorBase_readEvents _ _ _) as [[nb evs] w']. simpl.
  split; [| split].
  - rewrite app_assoc. apply last_snoc.
  - intros Hlt. destruct (Z.ltb_spec nb (count l)); [| lia].
    unfold numSensorDrivers, numFds in *.
    rewrite pollfd_at_alter_eq by lia. simpl.
    split_and!; try done.
    intros j Hj Hne. apply pollfd_at_alter_ne; lia.
  - intros Hge. destruct (Z.ltb_spec nb (count l)); [lia | done].
Qed.

(** The first turn of the loop decides the call when it returns. *)
Lemma pollEvents_loop_return fuel l s v s' :
  pass l s = (inr v, s') → pollEvents_loop (S fuel) l s = (inr v, s').
Proof. intros H. simpl. unfold bind. rewrite H. reflexivity. Qed.

Lemma pollEvents_loop_continue fuel l s l' s' :
  pass l s = (inl l', s') →
  pollEvents_loop (S fuel) l s = pollEvents_loop fuel l' s'.
Proof. intros H. simpl. unfold bind. rewrite H. reflexivity. Qed.

(** [pass] in terms of its two halves. *)
Lemma pass_eq l s :
  pass l s =
    let '(l1, s1) := drain driver_slots l s in
    if count l1 =? 0 then (inr (nbEvents l1), s1)
    else
      let '(r, s2) := wait_pass l1 s1 in
      match r with
      | inr v => (inr v, s2)
      | inl l2 =>
          if negb (n l2 =? 0) && negb (count l2 =? 0) then (inl l2, s2)
          else (inr (nbEvents l2), s2)
      end.
Proof.
  unfold pass, bind, ret.
  destruct (drain driver_slots l s) as [l1 s1].
  destruct (Z.eqb_spec (count l1) 0) as [Hz | Hnz].
  - rewrite Hz. rewrite andb_false_r. reflexivity.
  - destruct (wait_pass l1 s1) as [[l2 | v] s2]; [| reflexivity].
    destruct (negb (n l2 =? 0) && negb (count l2 =? 0)); reflexivity.
Qed.

(** C3.  In any turn of the loop in which room remains after the drain and
    [poll] answers a negative value, [pollEvents] returns at once the
    negated [errno]: the log ends with the failed [poll] and its message,
    and the value returned is negative, hence not the count [nbEvents] of
    records collected so far, whatever that count is. *)
Theorem poll_failure_returns_negated_errno s l fuel :
  let l1 := fst (drain driver_slots l s) in
  let s1 := snd (drain driver_slots l s) in
  let t := if nbEvents l1 =? 0 then -1 else 0 in
  let pr := sys_poll (env s1) (mPollFds (this s1)) numFds t in
  let n' := fst (fst pr) in
  let w1 := snd pr in
  count l1 ≠ 0 → n' < 0 → 0 < errno w1 ≤ 2 ^ 31 →
  let r := pollEvents_loop (S fuel) l s in
  fst r = inr (- errno w1) ∧
  - errno w1 < 0 ∧
  (0 ≤ nbEvents l1 → fst r ≠ inr (nbEvents l1)) ∧
  log (snd r) = log s1 ++ [c_poll (mPollFds (this s1)) numFds t n';
                           c_ALOGE "poll() failed"] ∧
  buf (snd r) = buf s1.
Proof.
  intros l1 s1 t pr n' w1 Hroom Hneg Herrno r.
  assert (Hpass : pass l s =
            (inr (- errno w1),
             mk_state (with_pollfds
                         (store_revents (mPollFds (this s1)) (snd (fst pr)))
                         (this s1))
                      w1 (buf s1)
                      (log s1 ++ [c_poll (mPollFds (this s1)) numFds t n';
                                  c_ALOGE "poll() failed"]))).
  { rewrite pass_eq. subst l1 s1 n' w1 pr t.
    destruct (drain driver_slots l s) as [l1 s1]. simpl in *.
    destruct (Z.eqb_spec (count l1) 0); [done |].
    rewrite wait_pass_eq. cbv zeta.
    destruct (sys_poll _ _ _ _) as [[n' rs] w1]. simpl in *.
    destruct (Z.ltb_spec n' 0); [| lia].
    rewrite <- app_assoc. simpl.
    rewrite to_int_id; [done |].
    unfold in_int, INT_MIN, INT_MAX. lia. }
  subst r. rewrite (pollEvents_loop_return _ _ _ _ _ Hpass). simpl.
  split_and!; try done; try lia.
  intros Hnb Heq. injection Heq as Heq. lia.
Qed.

(** C8 (as the code has it).  In a wait pass in which [poll] succeeds and
    the wake entry comes back with [POLLIN], exactly one [read] is issued on
    the wake entry's descriptor, for one byte, however many bytes the pipe
    holds.  The byte read is compared with 'W' and a mismatch (like a failed
    read) only adds a message to the log: the locals and the context do not
    depend on it.  The wake entry's [revents] is then zero, and the other
    entries are as [poll] left them. *)
Theorem wake_read_one_byte s l :
  let fds := mPollFds (this s) in
  let t := if nbEvents l =? 0 then -1 else 0 in
  let pr := sys_poll (env s) fds numFds t in
  let n' := fst (fst pr) in
  let c1 := with_pollfds (store_revents fds (snd (fst pr))) (this s) in
  let wfd := fd (pollfd_at c1 wake) in
  let rr := sys_read (snd pr) wfd 1 in
  let result := fst (fst rr) in
  let msg := snd (fst rr) in
  0 ≤ n' →
  has_POLLIN (revents (pollfd_at c1 wake)) = true →
  length fds = Z.to_nat numFds →
  let r := wait_pass l s in
  fst r = inl (mk_frame (count l) (nbEvents l) n' (data l)) ∧
  filter is_read (drop (length (log s)) (log (snd r)))
    = [c_read wfd 1 result] ∧
  log (snd r) =
    log s ++ [c_poll fds numFds t n'; c_read wfd 1 result]
          ++ (if result <? 0
              then [c_ALOGE "error reading from wake pipe"] else [])
          ++ (if Ascii.eqb msg WAKE_MESSAGE then []
              else [c_ALOGE "unknown message on wake queue"]) ∧
  env (snd r) = snd rr ∧
  buf (snd r) = buf s ∧
  pollfd_at (this (snd r)) wake = with_revents 0 (pollfd_at c1 wake) ∧
  (∀ i, 0 ≤ i → i ≠ wake → pollfd_at (this (snd r)) i = pollfd_at c1 i).
Proof.
  intros fds t pr n' c1 wfd rr result msg Hn Hwake Hlen r.
  subst r. rewrite wait_pass_eq. cbv zeta.
  subst result msg rr wfd c1 n' pr t fds.
  destruct (sys_poll _ _ _ _) as [[n' rs] w1]. simpl in *.
  destruct (Z.ltb_spec n' 0); [lia |].
  rewrite Hwake.
  destruct (sys_read _ _ _) as [[result msg] w2]. simpl.
  rewrite <- app_assoc. simpl. rewrite drop_app_length.
  split_and!; try done.
  - destruct (result <? 0), (Ascii.eqb msg WAKE_MESSAGE); reflexivity.
  - apply (pollfd_at_alter_eq
             (with_pollfds (store_revents (mPollFds (this s)) rs) (this s))).
    + unfold wake, numFds. lia.
    + simpl. rewrite length_store_revents, Hlen. unfold wake, numFds. lia.
  - intros i Hi Hne.
    apply (pollfd_at_alter_ne
             (with_pollfds (store_revents (mPollFds (this s)) rs) (this s)));
      [unfold wake, numFds; lia | done | done].
Qed.

(** ** The drain loop *)

Lemma drain_nil_room slots l s : count l = 0 → drain slots l s = (l, s).
Proof. intros H. destruct slots; simpl; [done |]. by rewrite H. Qed.

Lemma drain_cons i slots l s :
  count l ≠ 0 →
  drain (i :: slots) l s =
    let '(l', s') := drain_slot i l s in drain slots l' s'.
Proof.
  intros H. simpl. destruct (Z.eqb_spec (count l) 0); [done |]. reflexivity.
Qed.

Lemma drain_app slots slots' l s :
  drain (slots ++ slots') l s =
    let '(l', s') := drain slots l s in drain slots' l' s'.
Proof.
  revert l s. induction slots as [| i slots IH]; intros l s; [done |].
  destruct (Z.eq_dec (count l) 0) as [Hz | Hnz].
  - by rewrite !drain_nil_room.
  - rewrite <- app_comm_cons, !drain_cons by done.
    destruct (drain_slot i l s) as [l' s']. apply IH.
Qed.

(** *** The accounting of room and records *)

Lemma drain_slot_within count0 i l s :
  readEvents_within_room P → count0 ≤ INT_MAX →
  within count0 l → count l ≠ 0 →
  within count0 (fst (drain_slot i l s)).
Proof.
  intros Hc Hmax (Hcnt & Hnb & Hsum & Hdata) Hnz.
  destruct (slot_ready s i) eqn:Hr.
  - rewrite (drain_slot_ready _ _ _ Hr). cbv zeta.
    pose proof (Hc (env s) (sensor_at (this s) i) (count l)) as Hnbr.
    destruct (SensorBase_readEvents _ _ _) as [[nb evs] w']. simpl in *.
    assert (0 ≤ nb ≤ count l) as Hb by (apply Hnbr; lia).
    unfold within. simpl.
    rewrite !to_int_id by (unfold in_int, INT_MIN, INT_MAX in *; lia).
    lia.
  - rewrite (drain_slot_idle _ _ _ Hr). done.
Qed.

Lemma drain_within count0 slots l s :
  readEvents_within_room P → count0 ≤ INT_MAX →
  within count0 l → within count0 (fst (drain slots l s)).
Proof.
  intros Hc Hmax. revert l s.
  induction slots as [| i slots IH]; intros l s Hw; [done |].
  destruct (Z.eq_dec (count l) 0) as [Hz | Hnz].
  - by rewrite drain_nil_room.
  - rewrite drain_cons by done.
    pose proof (drain_slot_within count0 i l s Hc Hmax Hw Hnz) as Hw'.
    destruct (drain_slot i l s) as [l' s']. by apply IH.
Qed.

(** The outcome of a wait pass. *)
Lemma wait_pass_outcome l s :
  match fst (wait_pass l s) with
  | inl l2 =>
      count l2 = count l ∧ nbEvents l2 = nbEvents l ∧ data l2 = data l
  | inr v =>
      v = to_int (- errno (env (snd (wait_pass l s)))) ∧
      last (log (snd (wait_pass l s))) = Some (c_ALOGE "poll() failed")
  end.
Proof.
  rewrite wait_pass_eq. cbv zeta.
  destruct (sys_poll _ _ _ _) as [[n' rs] w1].
  destruct (n' <? 0).
  - simpl. split; [done |]. apply last_snoc.
  - destruct (has_POLLIN _); [| done].
    destruct (sys_read _ _ _) as [[result msg] w2]. done.
Qed.

Lemma pass_within count0 l s :
  readEvents_within_room P → count0 ≤ INT_MAX →
  within count0 l →
  match fst (pass l s) with
  | inl l' => within count0 l' ∧ count l' ≠ 0
  | inr v => returned_within count0 v (snd (pass l s))
  end.
Proof.
  intros Hc Hmax Hw. rewrite pass_eq.
  pose proof (drain_within count0 driver_slots l s Hc Hmax Hw) as Hw1.
  destruct (drain driver_slots l s) as [l1 s1]. simpl in Hw1.
  destruct (Z.eqb_spec (count l1) 0) as [Hz | Hnz].
  - simpl. left. unfold within in Hw1. lia.
  - pose proof (wait_pass_outcome l1 s1) as Ho.
    destruct (wait_pass l1 s1) as [[l2 | v] s2]; simpl in *.
    + destruct Ho as (Hcnt & Hnb & Hdata).
      assert (within count0 l2) as Hw2
        by (unfold within in *; rewrite Hcnt, Hnb, Hdata; done).
      destruct (Z.eqb_spec (n l2) 0), (Z.eqb_spec (count l2) 0); simpl;
        try (left; unfold within in Hw2; lia).
      split; done.
    + by right.
Qed.

Lemma pollEvents_loop_within count0 fuel l s :
  readEvents_within_room P → count0 ≤ INT_MAX →
  within count0 l →
  match fst (pollEvents_loop fuel l s) with
  | inl l' => within count0 l'
  | inr v => returned_within count0 v (snd (pollEvents_loop fuel l s))
  end.
Proof.
  intros Hc Hmax. revert l s.
  induction fuel as [| fuel IH]; intros l s Hw; [done |].
  pose proof (pass_within count0 l s Hc Hmax Hw) as Hp.
  destruct (pass l s) as [[l' | v] s'] eqn:Hpass; simpl in Hp.
  - rewrite (pollEvents_loop_continue _ _ _ _ _ Hpass). apply IH, Hp.
  - by rewrite (pollEvents_loop_return _ _ _ _ _ Hpass).
Qed.

Lemma within_initial count0 : 0 ≤ count0 → within count0 (mk_frame count0 0 0 0).
Proof. unfold within. simpl. lia. Qed.

(** Once [pollEvents] has returned, more fuel changes nothing. *)
Lemma pollEvents_loop_stable fuel fuel' l s v s' :
  pollEvents_loop fuel l s = (inr v, s') → (fuel ≤ fuel')%nat →
  pollEvents_loop fuel' l s = (inr v, s').
Proof.
  revert fuel' l s. induction fuel as [| fuel IH]; intros fuel' l s H Hle.
  - discriminate H.
  - destruct fuel' as [| fuel']; [lia |].
    destruct (pass l s) as [[l' | v'] s1] eqn:Hpass.
    + rewrite (pollEvents_loop_continue fuel _ _ _ _ Hpass) in H.
      rewrite (pollEvents_loop_continue fuel' _ _ _ _ Hpass).
      apply IH; [done | lia].
    + rewrite (pollEvents_loop_return fuel _ _ _ _ Hpass) in H.
      by rewrite (pollEvents_loop_return fuel' _ _ _ _ Hpass).
Qed.

(** With no room asked for, the call returns 0 in its first turn, without
    reading a driver or waiting. *)
Lemma pollEvents_zero_capacity fuel s :
  pollEvents (S fuel) 0 s = (inr 0, s).
Proof.
  unfold pollEvents. apply pollEvents_loop_return.
  rewrite pass_eq, drain_nil_room by reflexivity. reflexivity.
Qed.

(** C2.  When every driver's [readEvents] returns between 0 and the room it
    is given, a call [pollEvents(data, count)] with [0 <= count] that has
    returned has returned either a count of records between 0 and [count] or
    the error code of a failed [poll]; and as long as it has not returned,
    the records collected so far and the room left add up to [count]. *)
Theorem pollEvents_at_most_count s count0 fuel :
  readEvents_within_room P →
  0 ≤ count0 ≤ INT_MAX →
  let r := pollEvents fuel count0 s in
  match fst r with
  | inr v =>
      0 ≤ v ≤ count0 ∨
      (v = to_int (- errno (env (snd r))) ∧
       last (log (snd r)) = Some (c_ALOGE "poll() failed"))
  | inl l =>
      0 ≤ nbEvents l ≤ count0 ∧ nbEvents l + count l = count0 ∧ 0 ≤ count l
  end.
Proof.
  intros Hc [H0 Hmax] r. subst r. unfold pollEvents.
  pose proof (pollEvents_loop_within count0 fuel (mk_frame count0 0 0 0) s
                Hc Hmax (within_initial _ H0)) as H.
  destruct (pollEvents_loop _ _ _) as [[l | v] s']; simpl in *.
  - unfold within in H. lia.
  - exact H.
Qed.

(** The log of one turn of the loop in which room remains after the drain:
    the entry that follows the drain is the [poll]. *)
Lemma pass_log_poll l s :
  let l1 := fst (drain driver_slots l s) in
  let s1 := snd (drain driver_slots l s) in
  count l1 ≠ 0 →
  ∃ n', log (snd (pass l s)) !! length (log s1)
        = Some (c_poll (mPollFds (this s1)) numFds
                       (if nbEvents l1 =? 0 then -1 else 0) n').
Proof.
  intros l1 s1 Hroom. subst l1 s1. rewrite pass_eq.
  destruct (drain driver_slots l s) as [l1 s1]. simpl in *.
  destruct (Z.eqb_spec (count l1) 0); [done |].
  rewrite wait_pass_eq. cbv zeta.
  destruct (sys_poll _ _ _ _) as [[n' rs] w1]. exists n'.
  destruct (n' <? 0).
  - simpl. rewrite <- app_assoc. (rewrite lookup_app_length; reflexivity).
  - destruct (has_POLLIN _).
    + destruct (sys_read _ _ _) as [[result msg] w2].
      destruct (negb _ && negb _); simpl;
        rewrite <- app_assoc; (rewrite lookup_app_length; reflexivity).
    + destruct (negb _ && negb _); simpl; (rewrite lookup_app_length; reflexivity).
Qed.

(** C7.  In a call of [pollEvents] on drivers that keep the contract of
    [readEvents], in every turn of the loop in which room remains after the
    drain, the [poll] is issued with timeout 0 if and only if at least one
    record has been collected in this call ([nbEvents > 0]), and with
    timeout -1 (no limit) otherwise. *)
Theorem poll_timeout s0 count0 k l s :
  readEvents_within_room P →
  0 ≤ count0 ≤ INT_MAX →
  pollEvents k count0 s0 = (inl l, s) →
  let l1 := fst (drain driver_slots l s) in
  let s1 := snd (drain driver_slots l s) in
  count l1 ≠ 0 →
  ∃ t n',
    log (snd (pass l s)) !! length (log s1)
      = Some (c_poll (mPollFds (this s1)) numFds t n') ∧
    (t = 0 ↔ 0 < nbEvents l1) ∧
    (t = -1 ↔ ¬ 0 < nbEvents l1).
Proof.
  intros Hc [H0 Hmax] Hrun l1 s1 Hroom.
  destruct (pass_log_poll l s Hroom) as [n' Hlog].
  exists (if nbEvents l1 =? 0 then -1 else 0), n'.
  split; [exact Hlog |].
  assert (within count0 l) as Hw.
  { pose proof (pollEvents_loop_within count0 k (mk_frame count0 0 0 0) s0
                  Hc Hmax (within_initial _ H0)) as H.
    unfold pollEvents in Hrun. by rewrite Hrun in H. }
  pose proof (drain_within count0 driver_slots l s Hc Hmax Hw) as Hw1.
  fold l1 in Hw1. destruct Hw1 as (_ & Hnb & _).
  destruct (Z.eqb_spec (nbEvents l1) 0); lia.
Qed.

(** *** The order of the visits *)

Lemma offered_app room data ext room1 data1 ext' room2 data2 :
  offered room data ext room1 data1 →
  offered room1 data1 ext' room2 data2 →
  offered room data (ext ++ ext') room2 data2.
Proof.
  revert room data. induction ext as [| c ext IH]; intros room data H1 H2.
  - destruct H1 as [-> ->]. exact H2.
  - destruct c; simpl in *; try (by apply IH).
    destruct H1 as (-> & -> & H1). split_and!; try done. by apply IH.
Qed.

Lemma sensor_at_mSensors (c c' : sensors_poll_context_t) i :
  mSensors c' = mSensors c → sensor_at c' i = sensor_at c i.
Proof. unfold sensor_at. by intros ->. Qed.

(** One visit: at most one [readEvents], on the slot's driver, with the
    room and the address of the moment. *)
Lemma drain_slot_visit i l s :
  let l' := fst (drain_slot i l s) in
  let s' := snd (drain_slot i l s) in
  ∃ ext, log s' = log s ++ ext ∧
         mSensors (this s') = mSensors (this s) ∧
         omap read_sensor ext `sublist_of` [sensor_at (this s) i] ∧
         offered (count l) (data l) ext (count l') (data l').
Proof.
  destruct (slot_ready s i) eqn:Hr.
  - rewrite (drain_slot_ready _ _ _ Hr). cbv zeta.
    destruct (SensorBase_readEvents _ _ _) as [[nb evs] w']. simpl.
    eexists. split; [reflexivity |].
    split; [by destruct (nb <? count l) |].
    destruct (has_POLLIN _); simpl; done.
  - rewrite (drain_slot_idle _ _ _ Hr). simpl.
    eexists. split; [reflexivity |]. simpl.
    split_and!; try done. apply sublist_nil_l.
Qed.

Lemma drain_visits slots l s :
  let l' := fst (drain slots l s) in
  let s' := snd (drain slots l s) in
  ∃ ext, log s' = log s ++ ext ∧
         mSensors (this s') = mSensors (this s) ∧
         omap read_sensor ext `sublist_of` (sensor_at (this s) <$> slots) ∧
         offered (count l) (data l) ext (count l') (data l').
Proof.
  revert l s. induction slots as [| i slots IH]; intros l s.
  - exists []. simpl. rewrite app_nil_r. done.
  - destruct (Z.eq_dec (count l) 0) as [Hz | Hnz].
    + rewrite drain_nil_room by done. exists []. simpl.
      rewrite app_nil_r. split_and!; try done. apply sublist_nil_l.
    + rewrite drain_cons by done.
      destruct (drain_slot_visit i l s) as (e1 & Hl1 & Hm1 & Hs1 & Ho1).
      destruct (drain_slot i l s) as [l1 s1]. simpl in *.
      destruct (IH l1 s1) as (e2 & Hl2 & Hm2 & Hs2 & Ho2).
      exists (e1 ++ e2). split_and!.
      * by rewrite Hl2, Hl1, app_assoc.
      * by rewrite Hm2.
      * rewrite omap_app.
        apply (sublist_app _ [sensor_at (this s) i] _
                 (sensor_at (this s) <$> slots)); [done |].
        erewrite list_fmap_ext; [exact Hs2 |].
        intros ? j _. symmetry. by apply sensor_at_mSensors.
      * by eapply offered_app.
Qed.

(** Visits of slots that are not ready only ask [hasPendingEvents]. *)
Lemma drain_idle_slots slots l s :
  count l ≠ 0 →
  (∀ i, i ∈ slots → slot_ready s i = false) →
  drain slots l s =
    (l, mk_state (this s) (env s) (buf s)
          (log s ++ ((λ i, c_hasPendingEvents (sensor_at (this s) i) false)
                       <$> slots))).
Proof.
  intros Hnz. revert s. induction slots as [| i slots IH]; intros s Hidle.
  - simpl. rewrite app_nil_r. by destruct s.
  - rewrite drain_cons by done.
    rewrite (drain_slot_idle s l i) by (apply Hidle; left).
    rewrite IH.
    + simpl. by rewrite <- app_assoc.
    + intros j Hj. apply (Hidle j). by right.
Qed.

Lemma filter_is_readEvents_pending (f : Z → Z) (b : bool) (slots : list Z) :
  filter is_readEvents ((λ i, c_hasPendingEvents (f i) b) <$> slots) = [].
Proof. induction slots as [| i slots IH]; simpl; done. Qed.

Lemma filter_is_poll_pending (f : Z → Z) (b : bool) (slots : list Z) :
  filter is_poll ((λ i, c_hasPendingEvents (f i) b) <$> slots) = [].
Proof. induction slots as [| i slots IH]; simpl; done. Qed.

Lemma driver_slots_split a :
  0 ≤ a < numSensorDrivers →
  driver_slots = seqZ 0 a ++ a :: seqZ (a + 1) (numSensorDrivers - a - 1).
Proof.
  unfold numSensorDrivers. intros Ha.
  assert (a = 0 ∨ a = 1 ∨ a = 2 ∨ a = 3 ∨ a = 4) as Hcases by lia.
  destruct Hcases as [-> | [-> | [-> | [-> | ->]]]]; reflexivity.
Qed.

Lemma store_events_lookup (evs : list sensors_event_t) d b k :
  store_events d evs b !! k =
    if bool_decide (d ≤ k < d + Z.of_nat (length evs))
    then evs !! Z.to_nat (k - d) else b !! k.
Proof.
  revert d b. induction evs as [| e evs IH]; intros d b.
  - simpl. rewrite bool_decide_eq_false_2 by lia. done.
  - cbn [store_events]. rewrite IH. cbn [length].
    destruct (decide (k = d)) as [-> | Hne].
    + rewrite bool_decide_eq_false_2 by lia.
      rewrite bool_decide_eq_true_2 by lia.
      rewrite lookup_insert_eq, Z.sub_diag. done.
    + case_bool_decide as H1; case_bool_decide as H2; try lia.
      * replace (Z.to_nat (k - d)) with (S (Z.to_nat (k - (d + 1)))) by lia.
        done.
      * by rewrite lookup_insert_ne.
Qed.

Lemma visit_of_mSensors (c c' : sensors_poll_context_t) slots x :
  mSensors c' = mSensors c → visit_of c' slots x → visit_of c slots x.
Proof.
  intros Hm. destruct x; simpl; try done.
  all: intros (j & Hj & ->); exists j; split; [done |].
  all: by apply sensor_at_mSensors.
Qed.

Lemma visit_of_cons (c : sensors_poll_context_t) i slots x :
  visit_of c slots x → visit_of c (i :: slots) x.
Proof.
  destruct x; simpl; try done.
  all: intros (j & Hj & ->); exists j; split; [by right | done].
Qed.

(** What one visit logs is a visit of that slot. *)
Lemma drain_slot_calls i l s :
  ∃ ext, log (snd (drain_slot i l s)) = log s ++ ext ∧
         mSensors (this (snd (drain_slot i l s))) = mSensors (this s) ∧
         Forall (visit_of (this s) [i]) ext.
Proof.
  assert (∃ j, j ∈ [i] ∧ sensor_at (this s) i = sensor_at (this s) j) as Hv
    by (exists i; split; [by left | done]).
  destruct (slot_ready s i) eqn:Hr.
  - rewrite (drain_slot_ready _ _ _ Hr). cbv zeta.
    destruct (SensorBase_readEvents _ _ _) as [[nb evs] w']. simpl.
    eexists. split; [reflexivity |].
    split; [by destruct (nb <? count l) |].
    destruct (has_POLLIN _); repeat (constructor; [exact Hv |]); constructor.
  - rewrite (drain_slot_idle _ _ _ Hr). simpl.
    eexists. split; [reflexivity |]. split; [done |].
    constructor; [exact Hv | constructor].
Qed.

(** What a drain over [slots] logs are visits of slots of [slots]. *)
Lemma drain_calls slots l s :
  ∃ ext, log (snd (drain slots l s)) = log s ++ ext ∧
         mSensors (this (snd (drain slots l s))) = mSensors (this s) ∧
         Forall (visit_of (this s) slots) ext.
Proof.
  revert l s. induction slots as [| i slots IH]; intros l s.
  - exists []. simpl. by rewrite app_nil_r.
  - destruct (Z.eq_dec (count l) 0) as [Hz | Hnz].
    + rewrite drain_nil_room by done. exists []. by rewrite app_nil_r.
    + rewrite drain_cons by done.
      destruct (drain_slot_calls i l s) as (e1 & Hl1 & Hm1 & Hf1).
      destruct (drain_slot i l s) as [l1 s1]. simpl in Hl1, Hm1.
      destruct (IH l1 s1) as (e2 & Hl2 & Hm2 & Hf2).
      exists (e1 ++ e2). split; [by rewrite Hl2, Hl1, app_assoc |].
      split; [by rewrite Hm2 |].
      apply Forall_app. split.
      * eapply Forall_impl; [exact Hf1 |]. intros x. destruct x; simpl; try done.
        all: intros (j & Hj & ->); exists j; split; [| done].
        all: apply list_elem_of_singleton in Hj as ->; by left.
      * eapply Forall_impl; [exact Hf2 |]. intros x Hx.
        apply visit_of_cons. by eapply visit_of_mSensors.
Qed.

(** C4.  A drain pass visits the slots in the order of the enumeration,
    light first and proximity last: the drivers it reads are a subsequence
    of the driver table taken in that order, and each [readEvents] is given
    all the room left by the ones before it.  Every slot is dealt with in
    its turn: when slot [i] is reached, after the slots [before] it, what
    has been logged are visits of those slots only; if no room is left the
    pass is over; if room is left and the slot is not ready, its driver is
    asked for pending events and is not read; if room is left and the slot
    is ready, its driver's [readEvents] is called with all the room left,
    and only then are the slots [after] it visited.  Hence, in a call with
    capacity [C] in which the first ready slot [a] has a driver that
    supplies [C] records, the call returns [C] after that single
    [readEvents]: the [C] records of the buffer are the ones that driver
    stored, no later slot is visited and [poll] is not called. *)
Theorem drain_priority_order :
  driver_slots = [light; kxt; akm; nct; proximity] ∧
  (∀ l s,
     let l' := fst (drain driver_slots l s) in
     let s' := snd (drain driver_slots l s) in
     ∃ ext, log s' = log s ++ ext ∧
            omap read_sensor ext
              `sublist_of` (sensor_at (this s) <$> driver_slots) ∧
            offered (count l) (data l) ext (count l') (data l')) ∧
  (∀ l s before i after,
     driver_slots = before ++ i :: after →
     let l1 := fst (drain before l s) in
     let s1 := snd (drain before l s) in
     let sensor := sensor_at (this s) i in
     let r := drain driver_slots l s in
     (∃ ext1, log s1 = log s ++ ext1 ∧
              Forall (visit_of (this s) before) ext1) ∧
     (count l1 = 0 → r = (l1, s1)) ∧
     (count l1 ≠ 0 → slot_ready s1 i = false →
        ∃ rest,
          log (snd r) = log s1 ++ c_hasPendingEvents sensor false :: rest ∧
          Forall (visit_of (this s) after) rest) ∧
     (count l1 ≠ 0 → slot_ready s1 i = true →
        let nb :=
          fst (fst (SensorBase_readEvents (env s1) sensor (count l1))) in
        ∃ rest,
          log (snd r) =
            log s1
            ++ (if has_POLLIN (revents (pollfd_at (this s1) i)) then []
                else [c_hasPendingEvents sensor true])
            ++ c_readEvents sensor (data l1) (count l1) nb :: rest ∧
          Forall (visit_of (this s) after) rest)) ∧
  (∀ s C a evs w' fuel,
     0 < C ≤ INT_MAX →
     0 ≤ a < numSensorDrivers →
     (∀ i, 0 ≤ i < a → slot_ready s i = false) →
     slot_ready s a = true →
     SensorBase_readEvents (env s) (sensor_at (this s) a) C = (C, evs, w') →
     Z.of_nat (length evs) = C →
     let r := pollEvents (S fuel) C s in
     let ext := drop (length (log s)) (log (snd r)) in
     fst r = inr C ∧
     (∀ k, 0 ≤ k < C → buf (snd r) !! k = evs !! Z.to_nat k) ∧
     log (snd r) = log s ++ ext ∧
     filter is_readEvents ext = [c_readEvents (sensor_at (this s) a) 0 C C] ∧
     filter is_poll ext = [] ∧
     this (snd r) = this s).
Proof.
  split; [reflexivity |]. split; [| split].
  - intros l s l' s'.
    destruct (drain_visits driver_slots l s) as (ext & Hl & _ & Hs & Ho).
    by exists ext.
  - intros l s before i after Hsplit l1 s1 sensor r.
    subst r. rewrite Hsplit, drain_app.
    destruct (drain_calls before l s) as (ext1 & Hl1 & Hm1 & Hf1).
    subst l1 s1. destruct (drain before l s) as [l1 s1].
    cbn [fst snd] in *.
    assert (sensor_at (this s1) i = sensor) as Hsen
      by (by apply sensor_at_mSensors).
    split; [by exists ext1 |].
    split; [intros Hz; by apply drain_nil_room |].
    split.
    + intros Hnz Hidle. rewrite drain_cons by done.
      rewrite (drain_slot_idle _ _ _ Hidle), Hsen.
      match goal with
      | |- context [drain after l1 ?s2] =>
          destruct (drain_calls after l1 s2) as (rest & Hl2 & _ & Hf2)
      end.
      exists rest. cbn [log this] in Hl2, Hf2.
      split; [by rewrite Hl2, <- app_assoc |].
      eapply Forall_impl; [exact Hf2 |]. intros x.
      by apply visit_of_mSensors.
    + intros Hnz Hready. rewrite drain_cons by done.
      rewrite (drain_slot_ready _ _ _ Hready). cbv zeta. rewrite Hsen.
      destruct (SensorBase_readEvents _ _ _) as [[nb evs] w'].
      cbn [fst].
      match goal with
      | |- context [drain after ?l2 ?s2] =>
          destruct (drain_calls after l2 s2) as (rest & Hl2 & _ & Hf2)
      end.
      exists rest. cbn [log this] in Hl2, Hf2.
      split; [by rewrite Hl2, <- !app_assoc |].
      eapply Forall_impl; [exact Hf2 |]. intros x.
      apply visit_of_mSensors.
      by destruct (nb <? count l1).
  - intros s C a evs w' fuel HC Ha Hidle Hr Hread Hlen r ext.
    set (pend := (λ i, c_hasPendingEvents (sensor_at (this s) i) false)
                   <$> seqZ 0 a).
    set (pre := if has_POLLIN (revents (pollfd_at (this s) a)) then []
                else [c_hasPendingEvents (sensor_at (this s) a) true]).
    assert (Hpass : pass (mk_frame C 0 0 0) s =
              (inr C,
               mk_state (this s) w' (store_events 0 evs (buf s))
                 (log s ++ pend ++ pre
                    ++ [c_readEvents (sensor_at (this s) a) 0 C C]))).
    { rewrite pass_eq, (driver_slots_split a Ha), drain_app.
      rewrite drain_idle_slots; [| simpl; lia |].
      2: { intros i Hi. apply elem_of_seqZ in Hi. apply Hidle. lia. }
      rewrite drain_cons by (simpl; lia).
      rewrite drain_slot_ready by exact Hr. cbn [this env buf log count
        nbEvents data n]. cbv zeta. rewrite Hread.
      rewrite Z.ltb_irrefl, Z.sub_diag.
      rewrite drain_nil_room by reflexivity.
      cbn [count nbEvents]. change (to_int 0 =? 0) with true. cbv iota.
      rewrite to_int_id by (unfold in_int, INT_MIN, INT_MAX in *; lia).
      rewrite <- !app_assoc. reflexivity. }
    subst ext r. unfold pollEvents.
    rewrite (pollEvents_loop_return _ _ _ _ _ Hpass).
    cbn [fst snd buf log this]. rewrite drop_app_length.
    split_and!; try done.
    + intros k Hk. rewrite store_events_lookup.
      rewrite bool_decide_eq_true_2 by lia. by rewrite Z.sub_0_r.
    + rewrite !filter_app. subst pend pre.
      rewrite filter_is_readEvents_pending. by destruct (has_POLLIN _).
    + rewrite !filter_app. subst pend pre.
      rewrite filter_is_poll_pending. by destruct (has_POLLIN _).
Qed.

End Poll.

(** ** The wiring of the context is invariant *)
Section Wiring.
Context {P : Platform}.
Implicit Types (s : state P) (l : frame) (c : sensors_poll_context_t).

Lemma same_wiring_refl c : same_wiring c c.
Proof. by split_and!. Qed.

Lemma same_wiring_trans c1 c2 c3 :
  same_wiring c1 c2 → same_wiring c2 c3 → same_wiring c1 c3.
Proof.
  intros (H1 & H2 & H3) (H1' & H2' & H3'). split_and!; congruence.
Qed.

Lemma same_wiring_alter c i r :
  same_wiring c (with_pollfds (alter (with_revents r) i (mPollFds c)) c).
Proof.
  split_and!; try done. unfold interest. simpl.
  generalize (mPollFds c). intros fds. revert i.
  induction fds as [| p fds IH]; intros [| i]; simpl; try done.
  f_equal. apply IH.
Qed.

Lemma same_wiring_store c rs :
  same_wiring c (with_pollfds (store_revents (mPollFds c) rs) c).
Proof.
  split_and!; try done. unfold interest. simpl.
  generalize (mPollFds c). intros fds. revert rs.
  induction fds as [| p fds IH]; intros [| r rs]; simpl; try done.
  f_equal. apply IH.
Qed.

Lemma drain_slot_wiring i l s :
  same_wiring (this s) (this (snd (drain_slot i l s))).
Proof.
  destruct (slot_ready s i) eqn:Hr.
  - rewrite (drain_slot_ready _ _ _ Hr). cbv zeta.
    destruct (SensorBase_readEvents _ _ _) as [[nb evs] w']. simpl.
    destruct (nb <? count l);
      [apply same_wiring_alter | apply same_wiring_refl].
  - rewrite (drain_slot_idle _ _ _ Hr). apply same_wiring_refl.
Qed.

Lemma drain_wiring slots l s :
  same_wiring (this s) (this (snd (drain slots l s))).
Proof.
  revert l s. induction slots as [| i slots IH]; intros l s.
  - apply same_wiring_refl.
  - destruct (Z.eq_dec (count l) 0) as [Hz | Hnz].
    + rewrite drain_nil_room by done. apply same_wiring_refl.
    + rewrite drain_cons by done.
      pose proof (drain_slot_wiring i l s) as H1.
      destruct (drain_slot i l s) as [l1 s1].
      eapply same_wiring_trans; [exact H1 | apply IH].
Qed.

Lemma wait_pass_wiring l s :
  same_wiring (this s) (this (snd (wait_pass l s))).
Proof.
  rewrite wait_pass_eq. cbv zeta.
  destruct (sys_poll _ _ _ _) as [[n' rs] w1].
  destruct (n' <? 0); [apply same_wiring_store |].
  destruct (has_POLLIN _); [| apply same_wiring_store].
  destruct (sys_read _ _ _) as [[result msg] w2]. simpl.
  eapply same_wiring_trans; [apply same_wiring_store |].
  apply (same_wiring_alter
           (with_pollfds (store_revents (mPollFds (this s)) rs) (this s))).
Qed.

Lemma pass_wiring l s : same_wiring (this s) (this (snd (pass l s))).
Proof.
  rewrite pass_eq.
  pose proof (drain_wiring driver_slots l s) as H1.
  destruct (drain driver_slots l s) as [l1 s1]. simpl in H1.
  destruct (count l1 =? 0); [exact H1 |].
  pose proof (wait_pass_wiring l1 s1) as H2.
  destruct (wait_pass l1 s1) as [[l2 | v] s2]; simpl in H2.
  - destruct (negb _ && negb _); simpl;
      by eapply same_wiring_trans.
  - by eapply same_wiring_trans.
Qed.

Lemma pollEvents_loop_wiring fuel l s :
  same_wiring (this s) (this (snd (pollEvents_loop fuel l s))).
Proof.
  revert l s. induction fuel as [| fuel IH]; intros l s.
  - apply same_wiring_refl.
  - pose proof (pass_wiring l s) as H1.
    destruct (pass l s) as [[l' | v] s'] eqn:Hpass; simpl in H1.
    + rewrite (pollEvents_loop_continue _ _ _ _ _ Hpass).
      eapply same_wiring_trans; [exact H1 | apply IH].
    + by rewrite (pollEvents_loop_return _ _ _ _ _ Hpass).
Qed.

(** Whatever is called on the context, the descriptors and interest flags
    of the wait set, the write end of the wake pipe and the driver table
    stay what they were: only [revents] fields change. *)
Lemma exec_wiring (calls : list api) s :
  same_wiring (this s) (this (exec calls s)).
Proof.
  revert s. induction calls as [| a calls IH]; intros s.
  - apply same_wiring_refl.
  - change (exec (a :: calls) s) with (exec calls (api_step a s)).
    eapply same_wiring_trans; [| apply IH].
    destruct a as [handle enabled | handle ns | fuel count0]; simpl.
    + rewrite activate_this. apply same_wiring_refl.
    + rewrite setDelay_this. apply same_wiring_refl.
    + apply pollEvents_loop_wiring.
Qed.

Lemma exec_length_pollfds (calls : list api) s :
  length (mPollFds (this (exec calls s))) = length (mPollFds (this s)).
Proof.
  destruct (exec_wiring calls s) as (H & _).
  apply (f_equal length) in H. unfold interest in H.
  by rewrite !length_fmap in H.
Qed.

End Wiring.

(** * The simulated platform: runs of the operations *)

Lemma Sim_readEvents_within_room : readEvents_within_room Sim.platform.
Proof.
  intros w sensor room Hroom. simpl. rewrite length_take. lia.
Qed.

(** Enabling the light sensor: one wake byte is written, 0 is returned. *)
Lemma activate_wake_signal_witness :
  3 ∈ @mapped_ids Sim.platform ∧
  fst (activate 3 1 Sim.state0) = 0 ∧
  filter is_write (log (snd (activate 3 1 Sim.state0)))
    = [c_write 21 [WAKE_MESSAGE] 1 1] ∧
  Sim.pipe (env (snd (activate 3 1 Sim.state0))) = [WAKE_MESSAGE].
Proof.
  assert (3 ∈ @mapped_ids Sim.platform) as Hin by compute_done.
  destruct (activate_wake_signal Sim.state0 3 1 Hin) as (Hret & _ & _ & Hw).
  split_and!; [exact Hin | exact Hret | exact Hw | reflexivity].
Defined.

(** The wake pipe is full: the write fails and [activate] still returns the
    driver's 0. *)
Example activate_write_fails :
  fst (activate 3 1 Sim.state_full) = 0 ∧
  log (snd (activate 3 1 Sim.state_full))
    = [c_enable 100 3 1 0; c_write 21 [WAKE_MESSAGE] 1 (-1);
       c_ALOGE "error sending wake message"].
Proof. split; reflexivity. Qed.

(** The driver refuses, or the sensor is disabled: nothing is written. *)
Example activate_no_wake :
  activate 3 1 Sim.state_broken
    = (- Sim.EIO, mk_state Sim.ctx0 (env Sim.state_broken) ∅
                    [c_enable 100 3 1 (- Sim.EIO)]) ∧
  log (snd (activate 3 0 Sim.state0)) = [c_enable 100 3 0 0].
Proof. split; reflexivity. Qed.

Lemma setDelay_delegates_witness :
  3 ∈ @mapped_ids Sim.platform ∧
  fst (setDelay 3 100 Sim.state0) = 0 ∧
  log (snd (setDelay 3 100 Sim.state0)) = [c_setDelay 100 3 100 0].
Proof.
  assert (3 ∈ @mapped_ids Sim.platform) as Hin by compute_done.
  destruct (setDelay_delegates Sim.state0 3 100 Hin) as (Hret & Hst & _).
  split_and!; [exact Hin | exact Hret |].
  exact (f_equal log Hst).
Defined.

(** The light driver has 3 records for a room of 5: its flag is cleared. *)
Lemma drained_slot_flag_witness :
  let s := Sim.state_ready [1; 2; 3]%nat [] [] [] in
  let l := mk_frame 5 0 0 0 in
  (0 ≤ light < numSensorDrivers) ∧
  length (mPollFds (this s)) = Z.to_nat numFds ∧
  slot_ready s light = true ∧
  revents (pollfd_at (this s) light) = POLLIN ∧
  revents (pollfd_at (this (snd (drain_slot light l s))) light) = 0.
Proof.
  intros s l.
  assert (0 ≤ light < numSensorDrivers) as Hi by (by vm_compute).
  assert (length (mPollFds (this s)) = Z.to_nat numFds) as Hlen
    by reflexivity.
  assert (slot_ready s light = true) as Hr by reflexivity.
  destruct (drained_slot_flag s l light Hi Hlen Hr) as (_ & Hlt & _).
  split; [exact Hi |]. split; [exact Hlen |]. split; [exact Hr |].
  split; [reflexivity |]. apply Hlt. by vm_compute.
Defined.

(** The light driver fills a room of 3: its flag stays set. *)
Example filled_room_keeps_flag :
  let s := Sim.state_ready [1; 2; 3]%nat [] [] [] in
  this (snd (drain_slot light (mk_frame 3 0 0 0) s)) = this s ∧
  revents (pollfd_at (this (snd (drain_slot light (mk_frame 3 0 0 0) s)))
                     light) = POLLIN.
Proof. split; reflexivity. Qed.

(** Two records collected, then [poll] is interrupted: -EINTR is returned. *)
Lemma poll_failure_witness :
  let s := Sim.state_ready [1; 2]%nat [] [] [Sim.interrupted] in
  let l := mk_frame 5 0 0 0 in
  nbEvents (fst (drain driver_slots l s)) = 2 ∧
  count (fst (drain driver_slots l s)) ≠ 0 ∧
  fst (pollEvents 1 5 s) = inr (- EINTR) ∧
  last (log (snd (pollEvents 1 5 s))) = Some (c_ALOGE "poll() failed").
Proof.
  intros s l.
  assert (count (fst (drain driver_slots l s)) ≠ 0) as Hroom by (by vm_compute).
  destruct (poll_failure_returns_negated_errno s l 0 Hroom)
    as (Hret & _ & _ & Hlog & _); [by vm_compute | by vm_compute |].
  split_and!; [reflexivity | exact Hroom | exact Hret |].
  unfold pollEvents. fold l. rewrite Hlog. reflexivity.
Defined.

(** Two wake bytes are in the pipe: one [read] of one byte is issued. *)
Lemma wake_read_one_byte_witness :
  let s := Sim.state_ready [] [] [WAKE_MESSAGE; WAKE_MESSAGE]
             [Sim.wake_only] in
  let l := mk_frame 5 0 0 0 in
  length (mPollFds (this s)) = Z.to_nat numFds ∧
  filter is_read (log (snd (wait_pass l s))) = [c_read 20 1 1] ∧
  revents (pollfd_at (this (snd (wait_pass l s))) wake) = 0.
Proof.
  intros s l.
  assert (length (mPollFds (this s)) = Z.to_nat numFds) as Hlen
    by reflexivity.
  destruct (wake_read_one_byte s l) as (_ & Hrd & _ & _ & _ & Hwk & _);
    [by vm_compute | reflexivity | exact Hlen |].
  split_and!; [exact Hlen | exact Hrd |].
  rewrite Hwk. reflexivity.
Defined.

(** C8 as stated fails: with two bytes available in the wake pipe and the
    wake entry reported ready, the wait pass reads one byte and leaves the
    other in the pipe. *)
Lemma wake_pipe_not_drained :
  let s := Sim.state_ready [] [] [WAKE_MESSAGE; WAKE_MESSAGE]
             [Sim.wake_only] in
  let s' := snd (wait_pass (mk_frame 5 0 0 0) s) in
  Sim.pipe (env s) = [WAKE_MESSAGE; WAKE_MESSAGE] ∧
  filter is_poll (log s') = [c_poll (mPollFds (this s)) numFds (-1) 1] ∧
  filter is_read (log s') = [c_read 20 1 1] ∧
  Sim.pipe (env s') = [WAKE_MESSAGE] ∧
  Sim.pipe (env s') ≠ [].
Proof. intros s s'. split_and!; try reflexivity. discriminate. Qed.

(** A call with capacity 5 that returns 4 records after three turns. *)
Lemma pollEvents_at_most_count_witness :
  let s := Sim.state_ready [1; 2; 3]%nat [7]%nat [] [Sim.proximity_only] in
  readEvents_within_room Sim.platform ∧
  0 ≤ 5 ≤ INT_MAX ∧
  fst (pollEvents 3 5 s) = inr 4 ∧
  4 ≤ 5.
Proof.
  intros s.
  assert (0 ≤ 5 ≤ INT_MAX) as Hcap by (by vm_compute).
  pose proof (pollEvents_at_most_count s 5 3 Sim_readEvents_within_room Hcap)
    as H.
  assert (fst (pollEvents 3 5 s) = inr 4) as Hrun by reflexivity.
  cbv zeta in H. rewrite Hrun in H.
  split; [exact Sim_readEvents_within_room |]. split; [exact Hcap |].
  split; [exact Hrun |].
  destruct H as [[_ H] | [H _]]; [exact H | by vm_compute].
Defined.

(** Second turn of a call that has collected 4 records: [poll] is issued
    with timeout 0. *)
Lemma poll_timeout_witness :
  let s0 := Sim.state_ready [1; 2; 3]%nat [7]%nat [] [Sim.proximity_only] in
  let l := mk_frame 1 4 1 4 in
  let s := snd (pollEvents 1 5 s0) in
  readEvents_within_room Sim.platform ∧
  0 ≤ 5 ≤ INT_MAX ∧
  pollEvents 1 5 s0 = (inl l, s) ∧
  count (fst (drain driver_slots l s)) ≠ 0 ∧
  nbEvents (fst (drain driver_slots l s)) = 4 ∧
  ∃ n', log (snd (pass l s)) !! length (log (snd (drain driver_slots l s)))
        = Some (c_poll (mPollFds (this (snd (drain driver_slots l s))))
                       numFds 0 n').
Proof.
  intros s0 l s.
  assert (0 ≤ 5 ≤ INT_MAX) as Hcap by (by vm_compute).
  assert (pollEvents 1 5 s0 = (inl l, s)) as Hrun by reflexivity.
  assert (count (fst (drain driver_slots l s)) ≠ 0) as Hroom
    by (by vm_compute).
  destruct (poll_timeout s0 5 1 l s Sim_readEvents_within_room Hcap Hrun Hroom)
    as (t & n' & Hlog & Ht & _).
  split; [exact Sim_readEvents_within_room |]. split; [exact Hcap |].
  split; [exact Hrun |]. split; [exact Hroom |]. split; [reflexivity |].
  exists n'.
  assert (t = 0) as Ht0 by (apply Ht; by vm_compute).
  rewrite Ht0 in Hlog. exact Hlog.
Defined.

(** First turn, nothing collected: [poll] is issued with timeout -1. *)
Example first_poll_blocks :
  filter is_poll (log (snd (pollEvents 1 5 Sim.state0)))
    = [c_poll (mPollFds Sim.ctx0) numFds (-1) 0].
Proof. reflexivity. Qed.

(** Light and proximity are both ready and the light driver alone fills a
    capacity of 3: the three records are the light driver's, the proximity
    driver keeps its own.  With a capacity of 5 and two records in the light
    driver, the proximity slot is reached with room for 3 and its driver is
    read with that room, at offset 2. *)
Lemma drain_priority_order_witness :
  let s := Sim.state_ready [1; 2; 3]%nat [7; 8]%nat [] [] in
  let r := pollEvents 1 3 s in
  let s2 := Sim.state_ready [1; 2]%nat [7]%nat [] [] in
  let l := mk_frame 5 0 0 0 in
  let reached := drain [light; kxt; akm; nct] l s2 in
  (0 < 3 ≤ INT_MAX) ∧
  slot_ready s light = true ∧
  slot_ready s proximity = true ∧
  SensorBase_readEvents (env s) (sensor_at (this s) light) 3
    = (3, [1; 2; 3]%nat, Sim.world_with [] [7; 8]%nat [] []) ∧
  fst r = inr 3 ∧
  (∀ k, 0 ≤ k < 3 → buf (snd r) !! k = [1; 2; 3]%nat !! Z.to_nat k) ∧
  filter is_readEvents (log (snd r)) = [c_readEvents 100 0 3 3] ∧
  Sim.queue_of (env (snd r)) 104 = [7; 8]%nat ∧
  driver_slots = [light; kxt; akm; nct] ++ proximity :: [] ∧
  count (fst reached) ≠ 0 ∧
  slot_ready (snd reached) proximity = true ∧
  ∃ rest, log (snd (drain driver_slots l s2))
          = log (snd reached) ++ c_readEvents 104 2 3 1 :: rest.
Proof.
  intros s r s2 l reached.
  assert (0 < 3 ≤ INT_MAX) as Hcap by (by vm_compute).
  assert (0 ≤ light < numSensorDrivers) as Ha by (by vm_compute).
  assert (∀ i, 0 ≤ i < light → slot_ready s i = false) as Hidle
    by (unfold light; intros i Hi; lia).
  assert (slot_ready s light = true) as Hr by reflexivity.
  assert (SensorBase_readEvents (env s) (sensor_at (this s) light) 3
          = (3, [1; 2; 3]%nat, Sim.world_with [] [7; 8]%nat [] [])) as Hread
    by reflexivity.
  assert (Z.of_nat (length [1; 2; 3]%nat) = 3) as Hlen by reflexivity.
  destruct (proj2 (proj2 (proj2 drain_priority_order)) s 3 light _ _ 0%nat
              Hcap Ha Hidle Hr Hread Hlen)
    as (Hret & Hbuf & _ & Hreads & _).
  assert (driver_slots = [light; kxt; akm; nct] ++ proximity :: [])
    as Hsplit by reflexivity.
  assert (count (fst reached) ≠ 0) as Hroom by (by vm_compute).
  assert (slot_ready (snd reached) proximity = true) as Hready
    by reflexivity.
  destruct (proj1 (proj2 (proj2 drain_priority_order)) l s2
              [light; kxt; akm; nct] proximity [] Hsplit)
    as (_ & _ & _ & Hvisit).
  destruct (Hvisit Hroom Hready) as (rest & Hlog & _).
  split; [exact Hcap |]. split; [exact Hr |]. split; [reflexivity |].
  split; [exact Hread |]. split; [exact Hret |]. split; [exact Hbuf |].
  split; [exact Hreads |]. split; [reflexivity |].
  split; [exact Hsplit |]. split; [exact Hroom |]. split; [exact Hready |].
  exists rest. exact Hlog.
Defined.

(** Off the contract the accounting is lost: two drivers that answer [-EIO]
    leave [nbEvents] negative and the room larger than the capacity, and
    [poll] is issued with timeout 0 although no record was collected. *)
Example failing_drivers_lose_count :
  let l1 := fst (drain driver_slots (mk_frame 5 0 0 0) Faulty.state_ready) in
  nbEvents l1 = -10 ∧ count l1 = 15 ∧
  filter is_poll (log (snd (pass (mk_frame 5 0 0 0) Faulty.state_ready)))
    = [c_poll (mPollFds Sim.ctx0) numFds 0 0].
Proof. split_and!; reflexivity. Qed.

(** * Further properties of sensors.cpp *)

(** ** Construction and teardown *)
Section LifeProperties.
Context {P : Platform} {L : Lifecycle P}.
Implicit Types (s : state P) (c : sensors_poll_context_t) (w : World).

(** The constructor, call by call. *)
Lemma construct_eq junk junk_ptr junk_fd w :
  let n0 := new_driver w LightSensor in
  let n1 := new_driver (snd n0) KXTFSensor in
  let n2 := new_driver (snd n1) AkmSensor in
  let n3 := new_driver (snd n2) NctSensor in
  let n4 := new_driver (snd n3) ProximitySensor in
  let f0 := SensorBase_getFd (snd n0) (fst n0) in
  let f1 := SensorBase_getFd (snd n1) (fst n1) in
  let f2 := SensorBase_getFd (snd n2) (fst n2) in
  let f3 := SensorBase_getFd (snd n3) (fst n3) in
  let f4 := SensorBase_getFd (snd n4) (fst n4) in
  let pp := sys_pipe (snd n4) in
  let result := fst (fst pp) in
  let rfd := fst (snd (fst pp)) in
  let wfd := snd (snd (fst pp)) in
  let c1 := sys_fcntl (snd pp) rfd F_SETFL O_NONBLOCK in
  let c2 := sys_fcntl (snd c1) wfd F_SETFL O_NONBLOCK in
  construct (raw_object junk junk_ptr junk_fd) w =
    mk_life
      (mk_ctx [mk_pollfd f0 POLLIN 0; mk_pollfd f1 POLLIN 0;
               mk_pollfd f2 POLLIN 0; mk_pollfd f3 POLLIN 0;
               mk_pollfd f4 POLLIN 0; mk_pollfd rfd POLLIN 0]
              wfd [fst n0; fst n1; fst n2; fst n3; fst n4])
      (snd c2)
      ([l_new LightSensor (fst n0); l_getFd (fst n0) f0;
        l_new KXTFSensor (fst n1); l_getFd (fst n1) f1;
        l_new AkmSensor (fst n2); l_getFd (fst n2) f2;
        l_new NctSensor (fst n3); l_getFd (fst n3) f3;
        l_new ProximitySensor (fst n4); l_getFd (fst n4) f4;
        l_pipe result rfd wfd]
       ++ (if result <? 0 then [l_ALOGE "error creating wake pipe"] else [])
       ++ [l_fcntl rfd F_SETFL O_NONBLOCK (fst c1);
           l_fcntl wfd F_SETFL O_NONBLOCK (fst c2)]).
Proof.
  cbv zeta. unfold construct, attach, make_wake_pipe. cbn [l_env l_this l_log].
  destruct (new_driver w LightSensor) as [s0 w0]. cbn [fst snd l_env l_this l_log].
  destruct (new_driver w0 KXTFSensor) as [s1 w1]. cbn [fst snd l_env l_this l_log].
  destruct (new_driver w1 AkmSensor) as [s2 w2]. cbn [fst snd l_env l_this l_log].
  destruct (new_driver w2 NctSensor) as [s3 w3]. cbn [fst snd l_env l_this l_log].
  destruct (new_driver w3 ProximitySensor) as [s4 w4].
  cbn [fst snd l_env l_this l_log].
  destruct (sys_pipe w4) as [[result [rfd wfd]] w5].
  cbn [fst snd].
  destruct (sys_fcntl w5 rfd F_SETFL O_NONBLOCK) as [r1 w6]. cbn [fst snd].
  destruct (sys_fcntl w6 wfd F_SETFL O_NONBLOCK) as [r2 w7]. cbn [fst snd].
  f_equal.
Qed.

(** X3.  The constructor leaves a context of the declared sizes in which every
    entry of the poll array, the wake entry included, has interest [POLLIN]
    and no readiness; the driver table holds the objects created, in the
    order of creation; every driver's entry watches the descriptor that
    driver reported; the wake entry watches the first descriptor [pipe] gave
    and [mWritePipeFd] is the second.  Nothing of the storage the object was
    built in survives. *)
Theorem construct_layout junk junk_ptr junk_fd w :
  let st := construct (raw_object junk junk_ptr junk_fd) w in
  let c := l_this st in
  length (mPollFds c) = Z.to_nat numFds ∧
  length (mSensors c) = Z.to_nat numSensorDrivers ∧
  Forall (λ p, events p = POLLIN ∧ revents p = 0) (mPollFds c) ∧
  mSensors c = omap new_sensor (l_log st) ∧
  (∀ i, 0 ≤ i < numSensorDrivers →
        l_getFd (sensor_at c i) (fd (pollfd_at c i)) ∈ l_log st) ∧
  omap pipe_fds (l_log st) = [(fd (pollfd_at c wake), mWritePipeFd c)] ∧
  (∀ junk' junk_ptr' junk_fd',
     construct (raw_object junk' junk_ptr' junk_fd') w = st).
Proof.
  intros st c. subst c st. rewrite construct_eq. cbv zeta.
  cbn [l_this l_log mPollFds mSensors mWritePipeFd].
  split; [reflexivity |]. split; [reflexivity |].
  split; [repeat constructor |].
  split; [by destruct (_ <? 0) |].
  split.
  - unfold numSensorDrivers. intros i Hi.
    assert (i = 0 ∨ i = 1 ∨ i = 2 ∨ i = 3 ∨ i = 4) as Hc by lia.
    destruct Hc as [-> | [-> | [-> | [-> | ->]]]];
      unfold sensor_at, pollfd_at; cbn;
      rewrite !elem_of_cons; tauto.
  - split; [by destruct (_ <? 0) |].
    intros junk' junk_ptr' junk_fd'. by rewrite construct_eq.
Qed.

(** X4.  The constructor does not check [pipe]: when it fails, a message is
    logged and construction goes on with whatever the call left in its
    array.  Both values are passed to [fcntl] and installed, and a later
    successful enable writes the wake byte to the second of them. *)
Theorem construct_pipe_unchecked junk junk_ptr junk_fd w handle enabled :
  handle ∈ mapped_ids →
  let st := construct (raw_object junk junk_ptr junk_fd) w in
  let s := started st in
  let r := activate handle enabled s in
  ∃ result rfd wfd r1 r2,
    drop 10 (l_log st) =
      [l_pipe result rfd wfd]
      ++ (if result <? 0 then [l_ALOGE "error creating wake pipe"] else [])
      ++ [l_fcntl rfd F_SETFL O_NONBLOCK r1;
          l_fcntl wfd F_SETFL O_NONBLOCK r2] ∧
    fd (pollfd_at (l_this st) wake) = rfd ∧
    mWritePipeFd (l_this st) = wfd ∧
    (enabled ≠ 0 → fst r = 0 →
       ∃ wr, filter is_write (log (snd r)) = [c_write wfd [WAKE_MESSAGE] 1 wr]).
Proof.
  intros Hin st s r.
  pose proof (activate_mapped s handle enabled Hin) as Hact.
  subst r s st. revert Hact. rewrite construct_eq. cbv zeta.
  intros Hact. eexists _, _, _, _, _.
  split; [reflexivity |]. split; [reflexivity |]. split; [reflexivity |].
  intros Hen Hret. rewrite Hact in *. clear Hact.
  unfold started in *. cbn [this env buf log l_this l_env mWritePipeFd] in *.
  destruct (SensorBase_enable _ _ _ _) as [err w1].
  destruct (Z.eqb_spec enabled 0) as [| _]; [done |].
  destruct (Z.eqb_spec err 0) as [-> | Hne].
  - cbn [negb andb] in *.
    destruct (sys_write _ _ _ _) as [wr w2]. exists wr.
    cbn [snd log]. by destruct (wr <? 0).
  - cbn [negb andb fst] in Hret. done.
Qed.

Lemma same_wiring_sym c c' : same_wiring c c' → same_wiring c' c.
Proof. intros (H1 & H2 & H3). by split_and!. Qed.

Lemma interest_lookup c c' i :
  interest c' = interest c →
  fd (pollfd_at c' i) = fd (pollfd_at c i) ∧
  events (pollfd_at c' i) = events (pollfd_at c i).
Proof.
  unfold interest, pollfd_at. intros H.
  apply (f_equal (λ l, l !! Z.to_nat i)) in H.
  rewrite !list_lookup_fmap in H. rewrite !list_lookup_total_alt.
  destruct (mPollFds c' !! _), (mPollFds c !! _); simpl in *;
    by simplify_eq.
Qed.

Lemma interest_events c c' e :
  interest c' = interest c →
  Forall (λ p, events p = e) (mPollFds c) →
  Forall (λ p, events p = e) (mPollFds c').
Proof.
  unfold interest. intros H. rewrite !Forall_lookup. intros Hc i p' Hp'.
  apply (f_equal (λ l, l !! i)) in H. rewrite !list_lookup_fmap, Hp' in H.
  destruct (mPollFds c !! i) as [p |] eqn:Hp; simpl in H; [| done].
  specialize (Hc i p Hp). by simplify_eq.
Qed.

(** X5.  Whatever is called on a context, in any state, only [revents] fields
    change: every entry of the poll array keeps its descriptor and its
    interest flags, the array keeps its size, and the write end of the wake
    pipe and the driver table are what they were. *)
Theorem only_revents_change (calls : list api) s i :
  let s' := exec calls s in
  fd (pollfd_at (this s') i) = fd (pollfd_at (this s) i) ∧
  events (pollfd_at (this s') i) = events (pollfd_at (this s) i) ∧
  length (mPollFds (this s')) = length (mPollFds (this s)) ∧
  mWritePipeFd (this s') = mWritePipeFd (this s) ∧
  mSensors (this s') = mSensors (this s).
Proof.
  intros s'. subst s'.
  destruct (exec_wiring calls s) as (Hi & Hw & Hs).
  destruct (interest_lookup _ _ i Hi) as [Hfd Hev].
  split_and!; try done. apply exec_length_pollfds.
Qed.

(** X6.  In every state reached from a newly built context the poll array has
    [numFds] entries, all with interest [POLLIN]; the driver table has
    [numSensorDrivers] entries; each driver's entry still watches the
    descriptor its driver reported at construction, and the wake entry and
    [mWritePipeFd] are still the two descriptors of the pipe. *)
Theorem reachable_layout junk junk_ptr junk_fd w (calls : list api) :
  let st := construct (raw_object junk junk_ptr junk_fd) w in
  let s := exec calls (started st) in
  length (mPollFds (this s)) = Z.to_nat numFds ∧
  length (mSensors (this s)) = Z.to_nat numSensorDrivers ∧
  Forall (λ p, events p = POLLIN) (mPollFds (this s)) ∧
  (∀ i, 0 ≤ i < numSensorDrivers →
        l_getFd (sensor_at (this s) i) (fd (pollfd_at (this s) i))
          ∈ l_log st) ∧
  omap pipe_fds (l_log st)
    = [(fd (pollfd_at (this s) wake), mWritePipeFd (this s))].
Proof.
  intros st s.
  destruct (exec_wiring calls (started st)) as (Hi & Hw & Hs). fold s in Hi, Hw, Hs.
  pose proof (exec_length_pollfds calls (started st)) as Hlen. fold s in Hlen.
  pose proof (λ i, interest_lookup _ _ i Hi) as Hfd.
  pose proof (interest_events _ _ POLLIN Hi) as Hev.
  assert (∀ i, sensor_at (this s) i = sensor_at (l_this st) i) as Hsa
    by (intros i; by apply sensor_at_mSensors).
  revert Hlen Hfd Hev Hsa Hw Hs. generalize (this s). intros c.
  subst s st. rewrite construct_eq. cbv zeta.
  unfold started. cbn [this l_this l_log mPollFds mSensors mWritePipeFd].
  intros Hlen Hfd Hev Hsa Hw Hs.
  split; [by rewrite Hlen |]. split; [by rewrite Hs |].
  split; [apply Hev; repeat constructor |].
  split.
  - unfold numSensorDrivers. intros i Hi'.
    rewrite Hsa. rewrite (proj1 (Hfd i)).
    assert (i = 0 ∨ i = 1 ∨ i = 2 ∨ i = 3 ∨ i = 4) as Hc by lia.
    destruct Hc as [-> | [-> | [-> | [-> | ->]]]];
      unfold sensor_at, pollfd_at; cbn;
      rewrite !elem_of_cons; tauto.
  - rewrite (proj1 (Hfd wake)), Hw. by destruct (_ <? 0).
Qed.

(** The destructor's loop. *)
Lemma foldl_delete_at (slots : list Z) (st : life P) :
  foldl delete_at st slots =
    mk_life (l_this st)
            (foldl (λ w i, delete_driver w (sensor_at (l_this st) i))
                   (l_env st) slots)
            (l_log st ++ ((λ i, l_delete (sensor_at (l_this st) i)) <$> slots)).
Proof.
  revert st. induction slots as [| i slots IH]; intros st.
  - simpl. rewrite app_nil_r. by destruct st.
  - simpl. rewrite IH. unfold delete_at. simpl.
    by rewrite <- app_assoc.
Qed.

(** X7.  Build, use, tear down: after any sequence of calls the destructor
    deletes exactly the driver objects the constructor created, each once
    and in the order of creation, and then closes the two descriptors that
    [pipe] gave, the read end first. *)
Theorem teardown_releases junk junk_ptr junk_fd w (calls : list api) :
  let st := construct (raw_object junk junk_ptr junk_fd) w in
  let s := exec calls (started st) in
  let d := destroy (this s) (env s) in
  ∃ rfd wfd r1 r2,
    omap pipe_fds (l_log st) = [(rfd, wfd)] ∧
    l_log d = (l_delete <$> omap new_sensor (l_log st))
              ++ [l_close rfd r1; l_close wfd r2].
Proof.
  intros st s d.
  destruct (exec_wiring calls (started st)) as (Hi & Hw & Hs).
  fold s in Hi, Hw, Hs.
  pose proof (proj1 (interest_lookup _ _ wake Hi)) as Hfd.
  subst d. unfold destroy, call_close. rewrite foldl_delete_at.
  cbn [l_this l_env l_log].
  destruct (sys_close _ (fd _)) as [r1 w1]. cbn [l_this l_env l_log].
  destruct (sys_close _ (mWritePipeFd _)) as [r2 w2]. cbn [l_log].
  rewrite Hfd, Hw. unfold sensor_at. rewrite Hs.
  clear. subst st. rewrite construct_eq. cbv zeta.
  unfold started. cbn [this l_this l_log mPollFds mSensors mWritePipeFd].
  eexists _, _, r1, r2.
  split; [by destruct (_ <? 0) |].
  destruct (_ <? 0); reflexivity.
Qed.

End LifeProperties.

(** ** What a call of pollEvents does and does not do *)
Section PollProperties.
Context {P : Platform}.
Implicit Types (s : state P) (l : frame) (c : sensors_poll_context_t).

Lemma poll_side_wiring c c' x :
  same_wiring c c' → poll_side c x → poll_side c' x.
Proof.
  intros (Hi & Hw & Hs). destruct x; simpl; try done.
  - intros (i & Hr & ->). exists i. split; [done |].
    symmetry. by apply sensor_at_mSensors.
  - intros (i & Hr & ->). exists i. split; [done |].
    symmetry. by apply sensor_at_mSensors.
  - intros (H1 & H2 & H3). split_and!; try done. by rewrite Hi.
  - intros [-> ->]. split; [| done].
    symmetry. apply (interest_lookup c c' wake Hi).
Qed.

Lemma Forall_poll_side_wiring c c' ext :
  same_wiring c c' → Forall (poll_side c') ext → Forall (poll_side c) ext.
Proof.
  intros Hw Hf. eapply Forall_impl; [exact Hf |]. intros x.
  apply poll_side_wiring. by apply same_wiring_sym.
Qed.

Lemma drain_slot_side i l s :
  0 ≤ i < numSensorDrivers →
  ∃ ext, log (snd (drain_slot i l s)) = log s ++ ext ∧
         Forall (poll_side (this s)) ext.
Proof.
  intros Hi.
  assert (∃ j, 0 ≤ j < numSensorDrivers ∧
               sensor_at (this s) i = sensor_at (this s) j) as Hs
    by (by exists i).
  destruct (slot_ready s i) eqn:Hr.
  - rewrite (drain_slot_ready _ _ _ Hr). cbv zeta.
    destruct (SensorBase_readEvents _ _ _) as [[nb evs] w']. simpl.
    eexists. split; [reflexivity |].
    destruct (has_POLLIN _); repeat constructor; exact Hs.
  - rewrite (drain_slot_idle _ _ _ Hr). simpl.
    eexists. split; [reflexivity |]. repeat constructor. exact Hs.
Qed.

Lemma drain_side slots l s :
  Forall (λ i, 0 ≤ i < numSensorDrivers) slots →
  ∃ ext, log (snd (drain slots l s)) = log s ++ ext ∧
         Forall (poll_side (this s)) ext.
Proof.
  intros Hslots. revert l s.
  induction Hslots as [| i slots Hi _ IH]; intros l s.
  - exists []. simpl. by rewrite app_nil_r.
  - destruct (Z.eq_dec (count l) 0) as [Hz | Hnz].
    + rewrite drain_nil_room by done. exists []. by rewrite app_nil_r.
    + rewrite drain_cons by done.
      destruct (drain_slot_side i l s Hi) as (e1 & Hl1 & Hf1).
      pose proof (drain_slot_wiring i l s) as Hw.
      destruct (drain_slot i l s) as [l1 s1]. simpl in *.
      destruct (IH l1 s1) as (e2 & Hl2 & Hf2).
      exists (e1 ++ e2). split; [by rewrite Hl2, Hl1, app_assoc |].
      apply Forall_app. split; [done |].
      by eapply Forall_poll_side_wiring.
Qed.

Lemma driver_slots_range :
  Forall (λ i, 0 ≤ i < numSensorDrivers) driver_slots.
Proof. unfold numSensorDrivers. repeat constructor; lia. Qed.

Lemma wait_pass_side l s :
  ∃ ext, log (snd (wait_pass l s)) = log s ++ ext ∧
         Forall (poll_side (this s)) ext.
Proof.
  rewrite wait_pass_eq. cbv zeta.
  assert (∀ n',
            poll_side (this s)
              (c_poll (mPollFds (this s)) numFds
                      (if nbEvents l =? 0 then -1 else 0) n')) as Hp.
  { intros n'. simpl. split_and!; try done.
    destruct (nbEvents l =? 0); tauto. }
  destruct (sys_poll _ _ _ _) as [[n' rs] w1].
  destruct (n' <? 0).
  - simpl. eexists. rewrite <- app_assoc. split; [reflexivity |].
    constructor; [apply Hp |]. constructor; [exact I | constructor].
  - destruct (has_POLLIN _).
    + destruct (sys_read _ _ _) as [[result msg] w2]. simpl.
      eexists. rewrite <- app_assoc. split; [reflexivity |].
      constructor; [apply Hp |]. constructor.
      * simpl. split; [| done].
        apply (interest_lookup _ _ wake).
        apply (same_wiring_store (this s) rs).
      * destruct (result <? 0), (Ascii.eqb msg WAKE_MESSAGE);
          repeat (constructor; [exact I |]); constructor.
    + simpl. eexists. split; [reflexivity |].
      constructor; [apply Hp | constructor].
Qed.

Lemma pass_side l s :
  ∃ ext, log (snd (pass l s)) = log s ++ ext ∧
         Forall (poll_side (this s)) ext.
Proof.
  rewrite pass_eq.
  destruct (drain_side driver_slots l s driver_slots_range)
    as (e1 & Hl1 & Hf1).
  pose proof (drain_wiring driver_slots l s) as Hw.
  destruct (drain driver_slots l s) as [l1 s1]. simpl in *.
  destruct (count l1 =? 0); [by exists e1 |].
  destruct (wait_pass_side l1 s1) as (e2 & Hl2 & Hf2).
  assert (log (snd (wait_pass l1 s1)) = log s ++ e1 ++ e2 ∧
          Forall (poll_side (this s)) (e1 ++ e2)) as [Hl Hf].
  { split; [by rewrite Hl2, Hl1, app_assoc |].
    apply Forall_app. split; [done |].
    by eapply Forall_poll_side_wiring. }
  destruct (wait_pass l1 s1) as [[l2 | v] s2]; simpl in *.
  - destruct (negb _ && negb _); by exists (e1 ++ e2).
  - by exists (e1 ++ e2).
Qed.

Lemma pollEvents_loop_side fuel l s :
  ∃ ext, log (snd (pollEvents_loop fuel l s)) = log s ++ ext ∧
         Forall (poll_side (this s)) ext.
Proof.
  revert l s. induction fuel as [| fuel IH]; intros l s.
  - exists []. simpl. by rewrite app_nil_r.
  - destruct (pass_side l s) as (e1 & Hl1 & Hf1).
    pose proof (pass_wiring l s) as Hw.
    destruct (pass l s) as [[l' | v] s'] eqn:Hpass; simpl in Hl1, Hw.
    + rewrite (pollEvents_loop_continue _ _ _ _ _ Hpass).
      destruct (IH l' s') as (e2 & Hl2 & Hf2).
      exists (e1 ++ e2). split; [by rewrite Hl2, Hl1, app_assoc |].
      apply Forall_app. split; [done |].
      by eapply Forall_poll_side_wiring.
    + rewrite (pollEvents_loop_return _ _ _ _ _ Hpass). by exists e1.
Qed.

(** X8.  Every call that [pollEvents] makes is a [hasPendingEvents] or a
    [readEvents] on a driver of the table, a [poll] of the [numFds] entries
    with the descriptors and interest flags the context had at the start and
    a timeout of 0 or -1, a [read] of one byte on the wake entry's
    descriptor, or a log message.  It never calls [enable] or [setDelay] and
    never writes to the wake pipe. *)
Theorem pollEvents_calls fuel count0 s :
  let s' := snd (pollEvents fuel count0 s) in
  ∃ ext, log s' = log s ++ ext ∧
         Forall (poll_side (this s)) ext ∧
         Forall (λ x, is_control x = false) ext.
Proof.
  intros s'. subst s'. unfold pollEvents.
  destruct (pollEvents_loop_side fuel (mk_frame count0 0 0 0) s)
    as (ext & Hl & Hf).
  exists ext. split_and!; try done.
  eapply Forall_impl; [exact Hf |].
  intros x. by destruct x.
Qed.

End PollProperties.

(** ** A newly built context *)
Section FreshContext.
Context {P : Platform} {L : Lifecycle P}.
Implicit Types (s : state P) (l : frame).

(** The log of a call begins with the log of its first turn. *)
Lemma first_pass_prefix fuel l s :
  ∃ rest, log (snd (pollEvents_loop (S fuel) l s))
          = log (snd (pass l s)) ++ rest.
Proof.
  destruct (pass l s) as [[l' | v] s'] eqn:Hpass.
  - rewrite (pollEvents_loop_continue _ _ _ _ _ Hpass).
    destruct (pollEvents_loop_side fuel l' s') as (ext & Hl & _).
    by exists ext.
  - rewrite (pollEvents_loop_return _ _ _ _ _ Hpass). exists [].
    by rewrite app_nil_r.
Qed.

(** A turn in which no slot is ready asks every driver for pending events
    and then polls. *)
Lemma pass_idle l s :
  count l ≠ 0 →
  (∀ i, i ∈ driver_slots → slot_ready s i = false) →
  ∃ n' rest,
    log (snd (pass l s)) =
      log s
      ++ ((λ i, c_hasPendingEvents (sensor_at (this s) i) false)
            <$> driver_slots)
      ++ [c_poll (mPollFds (this s)) numFds
                 (if nbEvents l =? 0 then -1 else 0) n']
      ++ rest.
Proof.
  intros Hnz Hidle. rewrite pass_eq, (drain_idle_slots _ _ _ Hnz Hidle).
  destruct (Z.eqb_spec (count l) 0); [done |].
  rewrite wait_pass_eq. cbv zeta. cbn [this env buf log].
  destruct (sys_poll _ _ _ _) as [[n' rs] w1]. exists n'.
  destruct (n' <? 0).
  - eexists. cbn [snd log]. rewrite <- !app_assoc. reflexivity.
  - destruct (has_POLLIN _).
    + destruct (sys_read _ _ _) as [[result msg] w2].
      eexists.
      destruct (negb _ && negb _); cbn [snd log];
        rewrite <- !app_assoc; reflexivity.
    + exists [].
      destruct (negb _ && negb _); cbn [snd log];
        rewrite <- !app_assoc; reflexivity.
Qed.

(** X9.  The first call of [pollEvents] on a newly built context, with room for
    at least one record and no driver reporting pending events, reads no
    driver: it asks each driver of the table, in order, for pending events
    and then waits in [poll] without a time limit. *)
Theorem fresh_context_waits junk junk_ptr junk_fd w count0 fuel :
  let st := construct (raw_object junk junk_ptr junk_fd) w in
  count0 ≠ 0 →
  (∀ i, 0 ≤ i < numSensorDrivers →
        SensorBase_hasPendingEvents (l_env st) (sensor_at (l_this st) i)
        = false) →
  ∃ n' rest,
    log (snd (pollEvents (S fuel) count0 (started st))) =
      ((λ i, c_hasPendingEvents (sensor_at (l_this st) i) false)
         <$> driver_slots)
      ++ [c_poll (mPollFds (l_this st)) numFds (-1) n'] ++ rest.
Proof.
  intros st Hnz Hpend. unfold pollEvents.
  destruct (first_pass_prefix fuel (mk_frame count0 0 0 0) (started st))
    as (rest1 & ->).
  destruct (pass_idle (mk_frame count0 0 0 0) (started st) Hnz)
    as (n' & rest2 & ->).
  - intros i Hi. apply elem_of_seqZ in Hi.
    unfold slot_ready. cbn [this env started].
    rewrite (Hpend i) by (unfold numSensorDrivers in *; lia).
    rewrite orb_false_r. clear Hpend. subst st.
    rewrite construct_eq. cbv zeta. cbn [l_this].
    assert (i = 0 ∨ i = 1 ∨ i = 2 ∨ i = 3 ∨ i = 4) as Hc
      by (unfold numSensorDrivers in Hi; lia).
    destruct Hc as [-> | [-> | [-> | [-> | ->]]]]; reflexivity.
  - exists n', (rest2 ++ rest1). cbn [this log started nbEvents].
    rewrite <- !app_assoc. reflexivity.
Qed.

End FreshContext.

(** ** The caller's buffer *)
Section Buffer.
Context {P : Platform}.
Implicit Types (s : state P) (l : frame) (b : gmap Z sensors_event_t).

Lemma drain_slot_filled count0 b0 i l s :
  readEvents_within_room P → readEvents_stores_returned P →
  count0 ≤ INT_MAX →
  within count0 l → count l ≠ 0 →
  filled b0 (buf s) (nbEvents l) →
  filled b0 (buf (snd (drain_slot i l s))) (nbEvents (fst (drain_slot i l s))).
Proof.
  intros Hc Hst Hmax (Hcnt & Hnb & Hsum & Hdata) Hnz [Hin Hout].
  destruct (slot_ready s i) eqn:Hr.
  - rewrite (drain_slot_ready _ _ _ Hr). cbv zeta.
    pose proof (Hc (env s) (sensor_at (this s) i) (count l)) as Hnbr.
    pose proof (Hst (env s) (sensor_at (this s) i) (count l)) as Hlen.
    cbv zeta in Hlen.
    destruct (SensorBase_readEvents _ _ _) as [[nb evs] w']. simpl in *.
    assert (0 ≤ nb ≤ count l) as Hb by (apply Hnbr; lia).
    assert (Z.of_nat (length evs) = nb) as Hl by (apply Hlen; lia).
    rewrite to_int_id by (unfold in_int, INT_MIN, INT_MAX in *; lia).
    rewrite Hdata. split; intros k Hk; rewrite store_events_lookup, Hl.
    + case_bool_decide as Hkk.
      * apply lookup_lt_is_Some. lia.
      * apply Hin. lia.
    + rewrite bool_decide_eq_false_2 by lia. apply Hout. lia.
  - rewrite (drain_slot_idle _ _ _ Hr). done.
Qed.

Lemma drain_filled count0 b0 slots l s :
  readEvents_within_room P → readEvents_stores_returned P →
  count0 ≤ INT_MAX →
  within count0 l →
  filled b0 (buf s) (nbEvents l) →
  filled b0 (buf (snd (drain slots l s))) (nbEvents (fst (drain slots l s))).
Proof.
  intros Hc Hst Hmax. revert l s.
  induction slots as [| i slots IH]; intros l s Hw Hf; [done |].
  destruct (Z.eq_dec (count l) 0) as [Hz | Hnz].
  - by rewrite drain_nil_room.
  - rewrite drain_cons by done.
    pose proof (drain_slot_within count0 i l s Hc Hmax Hw Hnz) as Hw'.
    pose proof (drain_slot_filled count0 b0 i l s Hc Hst Hmax Hw Hnz Hf)
      as Hf'.
    destruct (drain_slot i l s) as [l' s']. by apply IH.
Qed.

Lemma wait_pass_buf l s : buf (snd (wait_pass l s)) = buf s.
Proof.
  rewrite wait_pass_eq. cbv zeta.
  destruct (sys_poll _ _ _ _) as [[n' rs] w1].
  destruct (n' <? 0); [done |].
  destruct (has_POLLIN _); [| done].
  by destruct (sys_read _ _ _) as [[result msg] w2].
Qed.

Lemma pass_filled count0 b0 l s :
  readEvents_within_room P → readEvents_stores_returned P →
  count0 ≤ INT_MAX →
  within count0 l →
  filled b0 (buf s) (nbEvents l) →
  match fst (pass l s) with
  | inl l' => within count0 l' ∧ filled b0 (buf (snd (pass l s))) (nbEvents l')
  | inr v =>
      ∃ nb, 0 ≤ nb ≤ count0 ∧ filled b0 (buf (snd (pass l s))) nb ∧
            (v = nb ∨
             last (log (snd (pass l s))) = Some (c_ALOGE "poll() failed"))
  end.
Proof.
  intros Hc Hst Hmax Hw Hf. rewrite pass_eq.
  pose proof (drain_within count0 driver_slots l s Hc Hmax Hw) as Hw1.
  pose proof (drain_filled count0 b0 driver_slots l s Hc Hst Hmax Hw Hf)
    as Hf1.
  destruct (drain driver_slots l s) as [l1 s1]. simpl in Hw1, Hf1.
  assert (0 ≤ nbEvents l1 ≤ count0) as Hb by (unfold within in Hw1; lia).
  destruct (Z.eqb_spec (count l1) 0) as [Hz | Hnz].
  - simpl. exists (nbEvents l1). split_and!; try done; try lia.
  - pose proof (wait_pass_outcome l1 s1) as Ho.
    pose proof (wait_pass_buf l1 s1) as Hbuf.
    destruct (wait_pass l1 s1) as [[l2 | v] s2]; simpl in *.
    + destruct Ho as (Hcnt & Hnb & Hdata).
      assert (within count0 l2) as Hw2
        by (unfold within in *; rewrite Hcnt, Hnb, Hdata; done).
      destruct (negb _ && negb _); simpl; rewrite Hbuf, ?Hnb.
      * by split.
      * exists (nbEvents l1). split_and!; try done; try lia.
    + destruct Ho as [_ Hlast]. exists (nbEvents l1). rewrite Hbuf.
      split_and!; try done; try lia. by right.
Qed.

Lemma pollEvents_loop_filled count0 b0 fuel l s :
  readEvents_within_room P → readEvents_stores_returned P →
  count0 ≤ INT_MAX →
  within count0 l →
  filled b0 (buf s) (nbEvents l) →
  let r := pollEvents_loop fuel l s in
  match fst r with
  | inl l' => within count0 l' ∧ filled b0 (buf (snd r)) (nbEvents l')
  | inr v =>
      ∃ nb, 0 ≤ nb ≤ count0 ∧ filled b0 (buf (snd r)) nb ∧
            (v = nb ∨ last (log (snd r)) = Some (c_ALOGE "poll() failed"))
  end.
Proof.
  intros Hc Hst Hmax. revert l s.
  induction fuel as [| fuel IH]; intros l s Hw Hf; [done |].
  pose proof (pass_filled count0 b0 l s Hc Hst Hmax Hw Hf) as Hp.
  cbv zeta.
  destruct (pass l s) as [[l' | v] s'] eqn:Hpass; simpl in Hp.
  - rewrite (pollEvents_loop_continue _ _ _ _ _ Hpass).
    apply IH; apply Hp.
  - by rewrite (pollEvents_loop_return _ _ _ _ _ Hpass).
Qed.

(** X10.  With drivers that return between 0 and the room they are given and
    store as many records as they return, a call [pollEvents(data, count)]
    with [0 <= count] never stores outside [data[0 .. count-1]], and the
    count it returns is backed by the buffer: a record has been stored at
    every offset below it and nothing at or beyond it. *)
Theorem pollEvents_buffer s count0 fuel :
  readEvents_within_room P →
  readEvents_stores_returned P →
  0 ≤ count0 ≤ INT_MAX →
  let r := pollEvents fuel count0 s in
  (∀ k, ¬ 0 ≤ k < count0 → buf (snd r) !! k = buf s !! k) ∧
  match fst r with
  | inr v =>
      filled (buf s) (buf (snd r)) v ∨
      last (log (snd r)) = Some (c_ALOGE "poll() failed")
  | inl l => filled (buf s) (buf (snd r)) (nbEvents l)
  end.
Proof.
  intros Hc Hst [H0 Hmax] r. subst r. unfold pollEvents.
  assert (filled (buf s) (buf s) (nbEvents (mk_frame count0 0 0 0))) as Hf
    by (split; [simpl; lia | done]).
  pose proof (pollEvents_loop_filled count0 (buf s) fuel _ s Hc Hst Hmax
                (within_initial _ H0) Hf) as H.
  cbv zeta in H.
  destruct (pollEvents_loop _ _ _) as [[l | v] s']; simpl in *.
  - destruct H as [Hw [Hin Hout]]. split; [| done].
    intros k Hk. apply Hout. unfold within in Hw. lia.
  - destruct H as (nb & Hnb & [Hin Hout] & Hv). split.
    + intros k Hk. apply Hout. lia.
    + destruct Hv as [-> | Hfail]; [by left | by right].
Qed.

End Buffer.

(** ** When pollEvents returns zero *)
Section ZeroReturn.
Context {P : Platform}.
Implicit Types (s : state P) (l : frame).

Lemma pass_zero count0 l s s' :
  readEvents_within_room P → 0 < count0 ≤ INT_MAX →
  within count0 l →
  pass l s = (inr 0, s') →
  (∃ pre fds rest,
     log s' = log s ++ pre ++ c_poll fds numFds (-1) 0 :: rest ∧
     filter is_poll rest = []) ∨
  last (log s') = Some (c_ALOGE "poll() failed").
Proof.
  intros Hc [Hpos Hmax] Hw. rewrite pass_eq.
  pose proof (drain_within count0 driver_slots l s Hc Hmax Hw) as Hw1.
  destruct (drain_side driver_slots l s driver_slots_range)
    as (e1 & Hl1 & _).
  destruct (drain driver_slots l s) as [l1 s1]. simpl in Hw1, Hl1.
  destruct Hw1 as (Hcnt & Hnb & Hsum & _).
  destruct (Z.eqb_spec (count l1) 0) as [Hz | Hnz].
  - intros Heq. injection Heq as Heq _. lia.
  - rewrite wait_pass_eq. cbv zeta.
    destruct (sys_poll _ _ _ _) as [[n' rs] w1].
    destruct (n' <? 0).
    + intros Heq. injection Heq as _ <-. right. simpl. apply last_snoc.
    + assert (∀ (s2 : state P) rest,
                log s2 = (log s1 ++ [c_poll (mPollFds (this s1)) numFds
                                       (if nbEvents l1 =? 0 then -1 else 0)
                                       n']) ++ rest →
                filter is_poll rest = [] →
                (if negb (n' =? 0) && negb (count l1 =? 0)
                 then (inl (mk_frame (count l1) (nbEvents l1) n' (data l1)),
                       s2)
                 else (inr (nbEvents l1), s2)) = (inr 0, s') →
                ∃ pre fds rest,
                  log s' = log s ++ pre ++ c_poll fds numFds (-1) 0 :: rest ∧
                  filter is_poll rest = []) as Hfin.
      { intros s2 rest Hlog Hrest.
        destruct (Z.eqb_spec n' 0) as [-> | Hn];
          destruct (Z.eqb_spec (count l1) 0); try done; simpl;
          intros Heq; injection Heq as Hv <-; try lia.
        rewrite Hv in Hlog. simpl in Hlog.
        exists e1, (mPollFds (this s1)), rest.
        rewrite Hlog, Hl1, <- !app_assoc. done. }
      destruct (has_POLLIN _).
      * destruct (sys_read _ _ _) as [[result msg] w2].
        intros Heq. left. refine (Hfin _ _ _ _ Heq).
        -- cbn [log]. reflexivity.
        -- by destruct (result <? 0), (Ascii.eqb msg WAKE_MESSAGE).
      * intros Heq. left. refine (Hfin _ [] _ _ Heq).
        -- cbn [log]. by rewrite app_nil_r.
        -- done.
Qed.

Lemma pollEvents_loop_zero count0 fuel l s s' :
  readEvents_within_room P → 0 < count0 ≤ INT_MAX →
  within count0 l →
  pollEvents_loop fuel l s = (inr 0, s') →
  (∃ pre fds rest,
     log s' = log s ++ pre ++ c_poll fds numFds (-1) 0 :: rest ∧
     filter is_poll rest = []) ∨
  last (log s') = Some (c_ALOGE "poll() failed").
Proof.
  intros Hc Hcap. revert l s.
  induction fuel as [| fuel IH]; intros l s Hw Hrun; [discriminate Hrun |].
  pose proof (pass_within count0 l s Hc (proj2 Hcap) Hw) as Hp.
  destruct (pass_side l s) as (e1 & Hl1 & _).
  destruct (pass l s) as [[l' | v] s1] eqn:Hpass; simpl in Hp, Hl1.
  - rewrite (pollEvents_loop_continue _ _ _ _ _ Hpass) in Hrun.
    destruct (IH l' s1 (proj1 Hp) Hrun)
      as [(pre & fds & rest & Hlog & Hrest) | Hfail]; [left | by right].
    exists (e1 ++ pre), fds, rest. split; [| done].
    by rewrite Hlog, Hl1, <- !app_assoc.
  - rewrite (pollEvents_loop_return _ _ _ _ _ Hpass) in Hrun.
    injection Hrun as -> ->. by eapply pass_zero.
Qed.

(** X11.  With drivers that keep the contract of [readEvents], a call with room
    for at least one record returns 0 only when its last [poll] was issued
    without a time limit and itself answered 0 (or when a failing [poll]
    left [errno] at 0): a wait that ends on readiness never yields an empty
    result. *)
Theorem zero_only_after_idle_wait s count0 fuel s' :
  readEvents_within_room P →
  0 < count0 ≤ INT_MAX →
  pollEvents fuel count0 s = (inr 0, s') →
  (∃ pre fds rest,
     log s' = log s ++ pre ++ c_poll fds numFds (-1) 0 :: rest ∧
     filter is_poll rest = []) ∨
  last (log s') = Some (c_ALOGE "poll() failed").
Proof.
  intros Hc Hcap Hrun. unfold pollEvents in Hrun.
  eapply pollEvents_loop_zero; [exact Hc | exact Hcap | | exact Hrun].
  apply within_initial. lia.
Qed.

(** X12.  With no room asked for ([count] is 0) the call returns 0 in its first
    turn and leaves everything as it was: no driver is asked or read, [poll]
    is not called and nothing is logged. *)
Theorem zero_capacity_returns_at_once fuel s :
  pollEvents (S fuel) 0 s = (inr 0, s) ∧
  pass (mk_frame 0 0 0 0) s = (inr 0, s).
Proof.
  assert (pass (mk_frame 0 0 0 0) s = (inr 0, s)) as Hpass
    by (rewrite pass_eq, drain_nil_room by reflexivity; reflexivity).
  split; [| exact Hpass].
  unfold pollEvents. by apply pollEvents_loop_return.
Qed.

End ZeroReturn.

(** ** The mapping from identifiers to slots *)
Section Mapping.
Context {P : Platform}.
Implicit Types (s : state P).

(** X1.  With pairwise distinct identifiers (as the labels of a [switch] must
    be), the mapping sends each identifier to the slot of its driver, is
    one-to-one except that the magnetic field and orientation identifiers
    share the [akm] slot, and reaches every slot: no driver of the table is
    without an identifier. *)
Theorem handleToDriver_table :
  NoDup mapped_ids →
  (handleToDriver ID_A = kxt ∧ handleToDriver ID_M = akm ∧
   handleToDriver ID_O = akm ∧ handleToDriver ID_P = proximity ∧
   handleToDriver ID_L = light ∧ handleToDriver ID_T = nct) ∧
  (∀ h h', h ∈ mapped_ids → h' ∈ mapped_ids →
           handleToDriver h = handleToDriver h' →
           h = h' ∨ (h = ID_M ∧ h' = ID_O) ∨ (h = ID_O ∧ h' = ID_M)) ∧
  (∀ i, i ∈ driver_slots → ∃ h, h ∈ mapped_ids ∧ handleToDriver h = i).
Proof.
  unfold mapped_ids. intros Hnd.
  assert (Htab : handleToDriver ID_A = kxt ∧ handleToDriver ID_M = akm ∧
                 handleToDriver ID_O = akm ∧ handleToDriver ID_P = proximity ∧
                 handleToDriver ID_L = light ∧ handleToDriver ID_T = nct).
  { repeat match goal with
           | H : NoDup (_ :: _) |- _ =>
               apply NoDup_cons in H as [? ?]
           end.
    repeat match goal with
           | H : _ ∉ _ :: _ |- _ => apply not_elem_of_cons in H as [? ?]
           end.
    unfold handleToDriver.
    repeat split;
      repeat match goal with
             | |- context [?a =? ?b] =>
                 destruct (Z.eqb_spec a b); try congruence
             end. }
  split; [exact Htab |].
  destruct Htab as (HA & HM & HO & HP & HL & HT). split.
  - intros h h'. rewrite !elem_of_cons, !elem_of_nil.
    unfold kxt, akm, proximity, light, nct in *.
    intros Hh Hh' Heq.
    destruct Hh as [-> | [-> | [-> | [-> | [-> | [-> | []]]]]]];
    destruct Hh' as [-> | [-> | [-> | [-> | [-> | [-> | []]]]]]];
      rewrite ?HA, ?HM, ?HO, ?HP, ?HL, ?HT in Heq; try lia; tauto.
  - intros i Hi. apply elem_of_seqZ in Hi. unfold numSensorDrivers in Hi.
    unfold kxt, akm, proximity, light, nct in *.
    assert (i = 0 ∨ i = 1 ∨ i = 2 ∨ i = 3 ∨ i = 4) as Hc by lia.
    destruct Hc as [-> | [-> | [-> | [-> | ->]]]].
    + exists ID_L. rewrite !elem_of_cons. tauto.
    + exists ID_A. rewrite !elem_of_cons. tauto.
    + exists ID_M. rewrite !elem_of_cons. tauto.
    + exists ID_T. rewrite !elem_of_cons. tauto.
    + exists ID_P. rewrite !elem_of_cons. tauto.
Qed.

(** X2.  The index the control operations use on the driver table is never
    out of bounds.  On a table of [numSensorDrivers] entries: for an
    unmapped identifier [activate] and [setDelay] make no call at all; for a
    mapped one the index is within the table and the one driver call made
    is [enable] (resp. [setDelay]) on the element of the table at that
    index, with the original identifier and argument.  In no case is a
    driver called that is not an element of the table. *)
Theorem dispatch_within_table s handle enabled ns :
  length (mSensors (this s)) = Z.to_nat numSensorDrivers →
  let ra := activate handle enabled s in
  let rd := setDelay handle ns s in
  let ea := drop (length (log s)) (log (snd ra)) in
  let ed := drop (length (log s)) (log (snd rd)) in
  (handle ∉ mapped_ids → ea = [] ∧ ed = []) ∧
  (handle ∈ mapped_ids →
     0 ≤ handleToDriver handle < numSensorDrivers ∧
     ∃ sensor,
       mSensors (this s) !! Z.to_nat (handleToDriver handle) = Some sensor ∧
       filter is_driver_call ea = [c_enable sensor handle enabled (fst ra)] ∧
       filter is_driver_call ed = [c_setDelay sensor handle ns (fst rd)]) ∧
  (handle ∉ mapped_ids ∨
   is_Some (mSensors (this s) !! Z.to_nat (handleToDriver handle))) ∧
  (∀ x, x ∈ ea → is_driver_call x →
        ∃ sensor err, x = c_enable sensor handle enabled err ∧
                      sensor ∈ mSensors (this s)) ∧
  (∀ x, x ∈ ed → is_driver_call x →
        ∃ sensor err, x = c_setDelay sensor handle ns err ∧
                      sensor ∈ mSensors (this s)).
Proof.
  intros Hlen ra rd ea ed. subst ea ed ra rd.
  destruct (decide (handle ∈ mapped_ids)) as [Hin | Hout].
  - pose proof (handleToDriver_mapped _ Hin) as Hslot.
    assert (Z.to_nat (handleToDriver handle) < length (mSensors (this s)))%nat
      as Hlt by (rewrite Hlen; unfold numSensorDrivers in *; lia).
    assert (sensor_at (this s) (handleToDriver handle) ∈ mSensors (this s))
      as Hel by (by apply list_elem_of_lookup_total_2).
    assert (mSensors (this s) !! Z.to_nat (handleToDriver handle)
            = Some (sensor_at (this s) (handleToDriver handle))) as Hlk
      by (by apply list_lookup_lookup_total_lt).
    split; [done |].
    rewrite (activate_mapped _ _ _ Hin), (setDelay_mapped _ _ _ Hin).
    cbv zeta.
    destruct (SensorBase_enable _ _ _ _) as [err w1].
    destruct (SensorBase_setDelay _ _ _ _) as [errd w1d].
    split; [| split; [right; by apply lookup_lt_is_Some | split]].
    + intros _. split; [done |]. eexists. split; [exact Hlk |].
      destruct (negb (enabled =? 0) && (err =? 0));
        [destruct (sys_write _ _ _ _) as [result w2] |]; cbn [fst snd log];
        rewrite <- ?app_assoc, !drop_app_length; split; try reflexivity.
      by destruct (result <? 0).
    + destruct (negb (enabled =? 0) && (err =? 0));
        [destruct (sys_write _ _ _ _) as [result w2] |]; cbn [snd log];
        rewrite <- ?app_assoc, drop_app_length; intros x Hx Hd.
      * apply elem_of_cons in Hx as [-> | Hx]; [by eexists _, _ |].
        apply elem_of_cons in Hx as [-> | Hx]; [done |].
        destruct (result <? 0); [| by apply elem_of_nil in Hx].
        apply list_elem_of_singleton in Hx as ->. done.
      * apply list_elem_of_singleton in Hx as ->. by eexists _, _.
    + cbn [snd log]. rewrite drop_app_length. intros x Hx Hd.
      apply list_elem_of_singleton in Hx as ->. by eexists _, _.
  - rewrite (activate_unmapped _ _ _ Hout), (setDelay_unmapped _ _ _ Hout).
    cbn [snd]. rewrite drop_all.
    split; [done |]. split; [done |]. split; [by left |].
    split; intros x Hx; by apply elem_of_nil in Hx.
Qed.

End Mapping.

(** ** Runs on the simulated platform *)

Lemma Sim_readEvents_stores_returned :
  readEvents_stores_returned Sim.platform.
Proof. intros w sensor room Hroom. reflexivity. Qed.

(** Construction on the simulated platform gives the context [Sim.ctx0] in
    the world [Sim.world0]. *)
Lemma construct_layout_witness :
  l_this (SimLife.built 4) = Sim.ctx0 ∧
  l_env (SimLife.built 4) = Sim.world0 ∧
  l_getFd 100 10 ∈ l_log (SimLife.built 4) ∧
  omap pipe_fds (l_log (SimLife.built 4)) = [(20, 21)].
Proof.
  destruct (@construct_layout Sim.platform SimLife.lifecycle
              (mk_pollfd 77 77 77) 66 55 (SimLife.empty_world 4))
    as (_ & _ & _ & _ & Hfd & Hpipe & _).
  split; [reflexivity |]. split; [reflexivity |].
  split; [| exact Hpipe].
  apply (Hfd 0). by vm_compute.
Defined.

(** [pipe] fails: the values it left, -7 and -9, are installed, and enabling
    the light sensor writes the wake byte to descriptor -9. *)
Lemma construct_pipe_unchecked_witness :
  3 ∈ @mapped_ids Sim.platform ∧
  filter is_l_ALOGE (l_log (SimLife.built 0))
    = [l_ALOGE "error creating wake pipe"] ∧
  mWritePipeFd (l_this (SimLife.built 0)) = -9 ∧
  ∃ wr, filter is_write
          (log (snd (activate 3 1 (started (SimLife.built 0)))))
        = [c_write (-9) [WAKE_MESSAGE] 1 wr].
Proof.
  assert (3 ∈ @mapped_ids Sim.platform) as Hin by compute_done.
  destruct (@construct_pipe_unchecked Sim.platform SimLife.lifecycle
              (mk_pollfd 77 77 77) 66 55 (SimLife.empty_world 0) 3 1 Hin)
    as (result & rfd & wfd & r1 & r2 & _ & _ & Hw & Hact).
  split; [exact Hin |]. split; [reflexivity |]. split; [reflexivity |].
  change (-9 = wfd) in Hw. rewrite <- Hw in Hact.
  apply Hact; [discriminate | reflexivity].
Defined.

Lemma reachable_layout_witness :
  let s := exec [Activate 3 1; PollEvents 2 5; SetDelay 3 100]
             (started (SimLife.built 4)) in
  length (mPollFds (this s)) = 6%nat ∧
  l_getFd 104 14 ∈ l_log (SimLife.built 4) ∧
  fd (pollfd_at (this s) wake) = 20 ∧ mWritePipeFd (this s) = 21.
Proof.
  intros s.
  destruct (@reachable_layout Sim.platform SimLife.lifecycle
              (mk_pollfd 77 77 77) 66 55 (SimLife.empty_world 4)
              [Activate 3 1; PollEvents 2 5; SetDelay 3 100])
    as (Hlen & _ & _ & Hfd & _).
  split; [exact Hlen |]. split; [| split; reflexivity].
  apply (Hfd 4). by vm_compute.
Defined.

Lemma fresh_context_waits_witness :
  let st := SimLife.built 4 in
  5 ≠ 0 ∧
  (∀ i, 0 ≤ i < numSensorDrivers →
        SensorBase_hasPendingEvents (l_env st) (sensor_at (l_this st) i)
        = false) ∧
  ∃ n' rest,
    log (snd (pollEvents 1 5 (started st))) =
      [c_hasPendingEvents 100 false; c_hasPendingEvents 101 false;
       c_hasPendingEvents 102 false; c_hasPendingEvents 103 false;
       c_hasPendingEvents 104 false;
       c_poll (mPollFds Sim.ctx0) numFds (-1) n'] ++ rest.
Proof.
  intros st.
  assert (5 ≠ 0) as Hnz by discriminate.
  assert (∀ i, 0 ≤ i < numSensorDrivers →
               SensorBase_hasPendingEvents (l_env st) (sensor_at (l_this st) i)
               = false) as Hpend by (intros i _; reflexivity).
  destruct (@fresh_context_waits Sim.platform SimLife.lifecycle
              (mk_pollfd 77 77 77) 66 55 (SimLife.empty_world 4) 5 0%nat
              Hnz Hpend) as (n' & rest & Hlog).
  split; [exact Hnz |]. split; [exact Hpend |].
  exists n', rest. exact Hlog.
Defined.

Lemma pollEvents_buffer_witness :
  let s := Sim.state_ready [1; 2; 3]%nat [7]%nat [] [Sim.proximity_only] in
  let r := pollEvents 3 5 s in
  readEvents_within_room Sim.platform ∧
  readEvents_stores_returned Sim.platform ∧
  0 ≤ 5 ≤ INT_MAX ∧
  fst r = inr 4 ∧
  buf (snd r) !! 4 = None ∧
  is_Some (buf (snd r) !! 3).
Proof.
  intros s r.
  assert (0 ≤ 5 ≤ INT_MAX) as Hcap by (by vm_compute).
  destruct (pollEvents_buffer s 5 3 Sim_readEvents_within_room
              Sim_readEvents_stores_returned Hcap) as [_ Hret].
  assert (fst r = inr 4) as Hrun by reflexivity.
  fold r in Hret. rewrite Hrun in Hret.
  split; [exact Sim_readEvents_within_room |].
  split; [exact Sim_readEvents_stores_returned |].
  split; [exact Hcap |]. split; [exact Hrun |].
  destruct Hret as [[Hin Hout] | Hfail];
    [| vm_compute in Hfail; discriminate Hfail].
  split; [apply (Hout 4); lia | apply (Hin 3); lia].
Defined.

(** Nothing is ready and the scripted [poll] answers 0: the call returns 0
    after a [poll] issued with timeout -1. *)
Lemma zero_only_after_idle_wait_witness :
  let r := pollEvents 1 5 Sim.state0 in
  readEvents_within_room Sim.platform ∧
  0 < 5 ≤ INT_MAX ∧
  fst r = inr 0 ∧
  ∃ pre fds rest,
    log (snd r) = pre ++ c_poll fds numFds (-1) 0 :: rest ∧
    filter is_poll rest = [].
Proof.
  intros r.
  assert (0 < 5 ≤ INT_MAX) as Hcap by (by vm_compute).
  assert (pollEvents 1 5 Sim.state0 = (inr 0, snd r)) as Hrun by reflexivity.
  destruct (zero_only_after_idle_wait Sim.state0 5 1 (snd r)
              Sim_readEvents_within_room Hcap Hrun)
    as [(pre & fds & rest & Hlog & Hrest) | Hfail];
    [| vm_compute in Hfail; discriminate Hfail].
  split; [exact Sim_readEvents_within_room |]. split; [exact Hcap |].
  split; [reflexivity |]. exists pre, fds, rest. by split.
Defined.

Lemma handleToDriver_table_witness :
  NoDup (@mapped_ids Sim.platform) ∧
  @handleToDriver Sim.platform 1 = akm ∧
  @handleToDriver Sim.platform 2 = akm.
Proof.
  assert (NoDup (@mapped_ids Sim.platform)) as Hnd by compute_done.
  destruct (@handleToDriver_table Sim.platform Hnd)
    as ((_ & HM & HO & _) & _).
  split; [exact Hnd |]. split; [exact HM | exact HO].
Defined.

Lemma dispatch_within_table_witness :
  length (mSensors (this Sim.state0)) = Z.to_nat numSensorDrivers ∧
  4 ∈ @mapped_ids Sim.platform ∧
  (7 ∉ @mapped_ids Sim.platform) ∧
  log (snd (activate 7 1 Sim.state0)) = [] ∧
  mSensors (this Sim.state0) !! Z.to_nat (@handleToDriver Sim.platform 4)
    = Some 104 ∧
  filter is_driver_call (log (snd (activate 4 1 Sim.state0)))
    = [c_enable 104 4 1 0].
Proof.
  assert (length (mSensors (this Sim.state0)) = Z.to_nat numSensorDrivers)
    as Hlen by reflexivity.
  assert (4 ∈ @mapped_ids Sim.platform) as Hin by compute_done.
  assert (7 ∉ @mapped_ids Sim.platform) as Hout by compute_done.
  destruct (dispatch_within_table Sim.state0 7 1 0 Hlen) as (Hun & _).
  destruct (dispatch_within_table Sim.state0 4 1 0 Hlen) as (_ & Hmap & _).
  destruct (Hun Hout) as [Hea _].
  destruct (Hmap Hin) as (_ & sensor & Hlk & Hfa & _).
  split; [exact Hlen |]. split; [exact Hin |]. split; [exact Hout |].
  split; [exact Hea |].
  assert (sensor = 104) as ->
    by (change (Some 104 = Some sensor) in Hlk; by injection Hlk).
  split; [exact Hlk | exact Hfa].
Defined.
